(** * Tax Form Annotation System: the evaluation engine of [utils.ts]

    A shallow embedding of the functions that resolve and mutate values by
    path, evaluate conditional logic, validate fields, merge formatting
    tiers and render currency and SSN strings, followed by the properties
    the specification states about them.

    The engine is TypeScript running on a JavaScript runtime, so the first
    part of the file fixes the data the code computes on:
    - a [value] is a JavaScript value of the kind a record holds:
      [undefined], [null], booleans, numbers (IEEE doubles, [spec_float]),
      strings, plain objects and arrays;
    - a property read or write that may throw returns a [result];
    - in-place mutation of a record is written as a functional update along
      the path; records are trees (JSON data), so no two paths alias;
    - members inherited from [Object.prototype] or [Array.prototype] are not
      part of a record: lookups see own properties only;
    - a string is its sequence of code units, one [ascii] each;
    - what the language leaves to the runtime (parsing a number, the
      shortest digits of a double, regular expressions) is a parameter,
      the class [Runtime]. *)

From Stdlib Require Import ZArith String Ascii List SpecFloat.
From stdpp Require Import gmap strings list pretty.

(** String appends compute under [simpl] in this file. *)
#[local] Arguments String.append !_ _ / : simpl nomatch.

#[local] Set Warnings "-register-all".

(* ====================================================================== *)
(** * Errors and results *)
(* ====================================================================== *)

(** The exceptions the engine can raise: [new Error(msg)] thrown by the
    path functions, and the runtime's own [TypeError], [RangeError] and
    [SyntaxError]. *)
Inductive js_error : Type :=
  | Error (message : string)
  | TypeError
  | RangeError
  | SyntaxError.

Inductive result (A : Type) : Type :=
  | Ret (a : A)
  | Throw (e : js_error).
Arguments Ret {A} a.
Arguments Throw {A} e.

#[global] Instance result_ret : MRet result := @Ret.
#[global] Instance result_bind : MBind result := λ A B f r,
  match r with
  | Ret a => f a
  | Throw e => Throw e
  end.
#[global] Instance result_fmap : FMap result := λ A B f r,
  match r with
  | Ret a => Ret (f a)
  | Throw e => Throw e
  end.

Definition returns {A} (r : result A) : bool :=
  match r with
  | Ret _ => true
  | Throw _ => false
  end.

(* ====================================================================== *)
(** * Strings *)
(* ====================================================================== *)

(** [\d] and [\w] of the regular expressions in the source. *)
Definition is_digit (c : ascii) : bool :=
  let n := N_of_ascii c in (48 <=? n)%N && (n <=? 57)%N.

Definition is_word (c : ascii) : bool :=
  let n := N_of_ascii c in
  is_digit c
  || ((65 <=? n)%N && (n <=? 90)%N)
  || ((97 <=? n)%N && (n <=? 122)%N)
  || (n =? 95)%N.

Definition str_eqb (s t : string) : bool := bool_decide (s = t).

Fixpoint str_filter (p : ascii → bool) (s : string) : string :=
  match s with
  | EmptyString => EmptyString
  | String c r => if p c then String c (str_filter p r) else str_filter p r
  end.

Fixpoint str_forallb (p : ascii → bool) (s : string) : bool :=
  match s with
  | EmptyString => true
  | String c r => p c && str_forallb p r
  end.

(** The longest prefix of [s] whose characters satisfy [p], and the rest. *)
Fixpoint str_span (p : ascii → bool) (s : string) : string * string :=
  match s with
  | EmptyString => (EmptyString, EmptyString)
  | String c r =>
      if p c then let '(a, b) := str_span p r in (String c a, b)
      else (EmptyString, s)
  end.

Fixpoint str_take (n : nat) (s : string) : string :=
  match n, s with
  | S n', String c r => String c (str_take n' r)
  | _, _ => EmptyString
  end.

Fixpoint str_drop (n : nat) (s : string) : string :=
  match n, s with
  | S n', String _ r => str_drop n' r
  | _, _ => s
  end.

Fixpoint str_repeat (c : ascii) (n : nat) : string :=
  match n with
  | O => EmptyString
  | S n' => String c (str_repeat c n')
  end.

Definition str_head (s : string) : option ascii :=
  match s with
  | EmptyString => None
  | String c _ => Some c
  end.

Fixpoint str_last (s : string) : option ascii :=
  match s with
  | EmptyString => None
  | String c EmptyString => Some c
  | String _ r => str_last r
  end.

(** [s.startsWith(p)] *)
Fixpoint startsWith (s p : string) {struct p} : bool :=
  match p, s with
  | EmptyString, _ => true
  | String a p', String b s' => bool_decide (a = b) && startsWith s' p'
  | String _ _, EmptyString => false
  end.

(** [s.includes(t)] *)
Fixpoint includes (s t : string) : bool :=
  startsWith s t ||
  match s with
  | EmptyString => false
  | String _ r => includes r t
  end.

(** [s.slice(1)] *)
Definition slice1 (s : string) : string := str_drop 1 s.

(** [s.split(sep)] for a one-character separator; the result is never
    empty: an empty string splits into one empty piece. *)
Fixpoint split (sep : ascii) (s : string) : list string :=
  match s with
  | EmptyString => [EmptyString]
  | String c r =>
      if bool_decide (c = sep) then EmptyString :: split sep r
      else match split sep r with
           | piece :: pieces => String c piece :: pieces
           | [] => [String c EmptyString]
           end
  end.

(** [parseInt(s, 10)] on a string of decimal digits: the number the
    digits denote.  It is the number [parseInt] gives as long as it is
    below [2^53]; from there on [parseInt] rounds, and the statements that
    depend on the index keep below it (see [exact_index]) or to arrays of
    the language, which have fewer than [2^32] elements. *)
Definition parse_digits (s : string) : N :=
  let fix go (acc : N) (s : string) : N :=
    match s with
    | EmptyString => acc
    | String c r => go (acc * 10 + (N_of_ascii c - 48))%N r
    end in
  go 0%N s.

(* ====================================================================== *)
(** * Numbers *)
(* ====================================================================== *)

(** A JavaScript number is an IEEE 754 double.  [spec_float] is the
    Standard Library's specification of them (sign, mantissa, exponent);
    doubles are its values in canonical form at precision 53. *)
Definition number : Type := spec_float.

Definition NaN : number := S754_nan.
Definition pos_zero : number := S754_zero false.
Definition number_of_Z (z : Z) : number := binary_normalize 53 1024 z 0 false.
Definition number_of_N (n : N) : number := number_of_Z (Z.of_N n).

(** [a < b], [a > b], [a <= b], [a >= b]: false when an operand is NaN. *)
Definition num_lt (a b : number) : bool := SFltb a b.
Definition num_gt (a b : number) : bool := SFltb b a.
Definition num_le (a b : number) : bool := SFleb a b.
Definition num_ge (a b : number) : bool := SFleb b a.
(** [a === b] on numbers: NaN differs from itself, the two zeros agree. *)
Definition num_eq (a b : number) : bool := SFeqb a b.

Definition is_nan (a : number) : bool :=
  match a with
  | S754_nan => true
  | _ => false
  end.

(** SameValueZero on numbers, the comparison of [Array.prototype.includes]. *)
Definition num_same_value_zero (a b : number) : bool :=
  (is_nan a && is_nan b) || num_eq a b.

(** The integer [m * 2^e] when it is one. *)
Definition integer_value (m : positive) (e : Z) : option N :=
  if (0 <=? e)%Z then Some (Npos m * 2 ^ Z.to_N e)%N
  else
    let d := (2 ^ Z.to_N (- e))%N in
    if (Npos m mod d =? 0)%N then Some (Npos m / d)%N else None.

(** [m * 2^e] when it is an integer below [2^53]: such a number prints as
    its decimal digits. *)
Definition safe_integer (m : positive) (e : Z) : option N :=
  match integer_value m e with
  | Some n => if (n <? 2 ^ 53)%N then Some n else None
  | None => None
  end.

(** The array lengths: the numbers that are integers in [0, 2^32 - 1]. *)
Definition uint32_of_number (x : number) : option N :=
  match x with
  | S754_zero _ => Some 0%N
  | S754_finite false m e =>
      match integer_value m e with
      | Some n => if (n <? 2 ^ 32)%N then Some n else None
      | None => None
      end
  | _ => None
  end.

(** [10^21 <= m * 2^e] *)
Definition at_least_1e21 (m : positive) (e : Z) : bool :=
  if (0 <=? e)%Z then (10 ^ 21 <=? Npos m * 2 ^ Z.to_N e)%N
  else (10 ^ 21 * 2 ^ Z.to_N (- e) <=? Npos m)%N.

(** The integer [n] for which [n / 10^f] is closest to [m * 2^e], the
    larger one when two are as close (step 11 of [Number.prototype.toFixed]). *)
Definition round_scaled (m : positive) (e : Z) (f : N) : N :=
  if (0 <=? e)%Z then (Npos m * 2 ^ Z.to_N e * 10 ^ f)%N
  else
    let d := (2 ^ Z.to_N (- e))%N in
    ((2 * Npos m * 10 ^ f + d) / (2 * d))%N.

(** The digits of [n] with a decimal point before the last [f] of them,
    padded with zeros on the left when there are too few. *)
Definition fixed_digits (n : N) (f : nat) : string :=
  let m := pretty n in
  match f with
  | O => m
  | S _ =>
      let k := String.length m in
      let m := if (k <=? f)%nat then str_repeat "0" (f + 1 - k) +:+ m else m in
      let k := String.length m in
      str_take (k - f) m +:+ "." +:+ str_drop (k - f) m
  end.

(** [Math.round]: the nearest integer, halves rounded up. *)
Definition math_round (x : number) : number :=
  match x with
  | S754_finite s m e =>
      let v := if s then Zneg m else Zpos m in
      let r :=
        if (0 <=? e)%Z then (v * 2 ^ e)%Z
        else ((2 * v + 2 ^ (- e)) / 2 ^ (1 - e))%Z in
      if (r =? 0)%Z then S754_zero s else number_of_Z r
  | _ => x
  end.

(** What the engine asks of the runtime and the language standard leaves
    to the implementation or to a parser of its own:
    - [string_to_number]: the number a string converts to ([Number(s)]);
    - [shortest_digits m e]: the digits [s] and the decimal exponent [n] of
      [Number::toString] for the positive number [m * 2^e], the shortest
      that read back as the same double;
    - [regexp_test p s]: [new RegExp(p).test(s)], [None] when [p] is not a
      pattern and the constructor throws a [SyntaxError]. *)
Class Runtime : Type := {
  string_to_number : string → number;
  shortest_digits : positive → Z → N * Z;
  regexp_test : string → string → option bool;
}.

(** [Number::toString] from the digits [s] and the exponent [n]. *)
Definition format_digits (digits : string) (n : Z) : string :=
  let k := Z.of_nat (String.length digits) in
  if (k <=? n)%Z && (n <=? 21)%Z then
    digits +:+ str_repeat "0" (Z.to_nat (n - k))
  else if (0 <? n)%Z && (n <=? 21)%Z then
    str_take (Z.to_nat n) digits +:+ "." +:+ str_drop (Z.to_nat n) digits
  else if (-6 <? n)%Z && (n <=? 0)%Z then
    "0." +:+ str_repeat "0" (Z.to_nat (- n)) +:+ digits
  else
    let exponent :=
      (if (n - 1 <? 0)%Z then "-" else "+") +:+ pretty (Z.abs_N (n - 1)) in
    match digits with
    | String d EmptyString => String d "e" +:+ exponent
    | String d rest => String d "." +:+ rest +:+ "e" +:+ exponent
    | EmptyString => "e" +:+ exponent
    end.

(** [ToString] of the positive number [m * 2^e]. *)
Definition positive_to_string {rt : Runtime} (m : positive) (e : Z) : string :=
  match safe_integer m e with
  | Some n => pretty n
  | None => let '(s, n) := shortest_digits m e in format_digits (pretty s) n
  end.

(** [String(x)] for a number [x]. *)
Definition number_to_string {rt : Runtime} (x : number) : string :=
  match x with
  | S754_nan => "NaN"
  | S754_zero _ => "0"
  | S754_infinity s => if s then "-Infinity" else "Infinity"
  | S754_finite s m e => (if s then "-" else "") +:+ positive_to_string m e
  end.

(** [x.toFixed(fractionDigits)]; the argument is taken as an integer. *)
Definition toFixed {rt : Runtime} (x : number) (fractionDigits : Z) : result string :=
  if (fractionDigits <? 0)%Z || (100 <? fractionDigits)%Z then Throw RangeError
  else
    let f := Z.to_nat fractionDigits in
    match x with
    | S754_nan | S754_infinity _ => Ret (number_to_string x)
    | S754_zero _ => Ret (fixed_digits 0 f)
    | S754_finite s m e =>
        let sign := if s then "-" else "" in
        if at_least_1e21 m e then Ret (sign +:+ positive_to_string m e)
        else Ret (sign +:+ fixed_digits (round_scaled m e (N.of_nat f)) f)
    end.

(* ====================================================================== *)
(** * Values *)
(* ====================================================================== *)

(** The values of a record.  An object is its own properties by name.  An
    array is an object too, as in the language: its elements are the
    properties named by the decimal index, [len] is its [length], and it
    may carry properties under other names. *)
Inductive value : Type :=
  | VUndef
  | VNull
  | VBool (b : bool)
  | VNum (n : number)
  | VStr (s : string)
  | VObj (props : gmap string value)
  | VArr (len : N) (props : gmap string value).

#[global] Instance value_inhabited : Inhabited value := populate VUndef.

(** The property name of the element at index [i]: the number in print.
    An index read from a path is exact as a double below [2^53], and
    prints as its decimal digits. *)
Definition index_key (i : N) : string := pretty i.

(** The array literal [[v0, v1, ...]] and the object literal [{}]. *)
Definition array_of_list (l : list value) : value :=
  VArr (N.of_nat (length l))
       (list_to_map (imap (λ i v, (index_key (N.of_nat i), v)) l)).
Definition empty_array : value := array_of_list [].
Definition empty_object : value := VObj ∅.

(** A canonical numeric string names an index: the decimal digits of a
    number, with no sign and no leading zero. *)
Definition canonical_index (k : string) : option N :=
  if negb (str_eqb k "") && str_forallb is_digit k
     && str_eqb (index_key (parse_digits k)) k
  then Some (parse_digits k) else None.

(** The array indices are the canonical ones below [2^32 - 1]. *)
Definition array_index (k : string) : option N :=
  match canonical_index k with
  | Some i => if (i <? 2 ^ 32 - 1)%N then Some i else None
  | None => None
  end.

(** The properties an array keeps when its length becomes [n]: all but
    the elements at [n] and beyond. *)
Definition kept_at_length (n : N) (k : string) : bool :=
  match array_index k with
  | Some i => (i <? n)%N
  | None => true
  end.

(** [typeof v] *)
Definition typeof (v : value) : string :=
  match v with
  | VUndef => "undefined"
  | VNull | VObj _ | VArr _ _ => "object"
  | VBool _ => "boolean"
  | VNum _ => "number"
  | VStr _ => "string"
  end.

(** [Array.isArray(v)] *)
Definition isArray (v : value) : bool :=
  match v with
  | VArr _ _ => true
  | _ => false
  end.

(** [v === null || v === undefined] *)
Definition is_nullish (v : value) : bool :=
  match v with
  | VUndef | VNull => true
  | _ => false
  end.

(** Truthiness, the test of [if (v)] and [!v]. *)
Definition truthy (v : value) : bool :=
  match v with
  | VUndef | VNull => false
  | VBool b => b
  | VNum (S754_zero _) | VNum S754_nan => false
  | VNum _ => true
  | VStr s => negb (str_eqb s "")
  | VObj _ | VArr _ _ => true
  end.

(** [v[k]]: reading a property of [null] or [undefined] throws; a
    primitive has the properties of its wrapper (for a string, its
    characters and its length).  Of an object and of an array the
    properties read are those of their own.  The members they inherit
    ([toString], [constructor], [push], ...) are functions and prototype
    objects, which are no values of a record; a statement that depends on
    what a name gives keeps to the names that are none of these (see
    [inherits] below). *)
Definition get_prop (v : value) (k : string) : result value :=
  match v with
  | VUndef | VNull => Throw TypeError
  | VBool _ | VNum _ => Ret VUndef
  | VStr s =>
      if str_eqb k "length" then Ret (VNum (number_of_N (N.of_nat (String.length s))))
      else match canonical_index k with
           | Some i =>
               match String.get (N.to_nat i) s with
               | Some c => Ret (VStr (String c EmptyString))
               | None => Ret VUndef
               end
           | None => Ret VUndef
           end
  | VObj props => Ret (default VUndef (props !! k))
  | VArr len props =>
      if str_eqb k "length" then Ret (VNum (number_of_N len))
      else Ret (default VUndef (props !! k))
  end.

(** The child stored back under [k]: how a mutation made through a
    reference to the child shows in its parent. *)
Definition store (v : value) (k : string) (child : value) : value :=
  match v with
  | VObj props => VObj (<[k := child]> props)
  | VArr len props => VArr len (<[k := child]> props)
  | _ => v
  end.

(** [String(v)] and [Number(v)] on an object or an array go through its
    [toString]: the inherited one, unless the value has a property of that
    name of its own.  In a record such a property is no function, and the
    conversion throws a [TypeError].  An array converts its elements too,
    unless a property [join] of its own (no function either) has it print
    as an object does. *)
Fixpoint convertible (v : value) : bool :=
  match v with
  | VObj props => negb (bool_decide (is_Some (props !! "toString")))
  | VArr len props =>
      let elements : gmap string bool := convertible <$> props in
      negb (bool_decide (is_Some (props !! "toString")))
      && (bool_decide (is_Some (props !! "join"))
          || forallb (λ i, default true (elements !! index_key (N.of_nat i)))
                     (seq 0 (N.to_nat len)))
  | _ => true
  end.

Section Conversions.
Context {rt : Runtime}.

(** What [String(v)] gives when it gives a string: an object prints as
    ["[object Object]"], an array as its elements joined by commas, [null]
    and [undefined] elements as nothing. *)
Fixpoint string_of_value (v : value) : string :=
  match v with
  | VUndef => "undefined"
  | VNull => "null"
  | VBool b => if b then "true" else "false"
  | VNum n => number_to_string n
  | VStr s => s
  | VObj _ => "[object Object]"
  | VArr len props =>
      let rendered : gmap string string :=
        (λ x, if is_nullish x then "" else string_of_value x) <$> props in
      if bool_decide (is_Some (props !! "join")) then "[object Array]"
      else
        String.concat ","
          (map (λ i, default "" (rendered !! index_key (N.of_nat i)))
               (seq 0 (N.to_nat len)))
  end.

(** [String(v)] *)
Definition to_string_value (v : value) : result string :=
  if convertible v then Ret (string_of_value v) else Throw TypeError.

(** [Number(v)] *)
Definition to_number_value (v : value) : result number :=
  match v with
  | VUndef => Ret NaN
  | VNull => Ret pos_zero
  | VBool b => Ret (if b then number_of_Z 1 else pos_zero)
  | VNum n => Ret n
  | VStr s => Ret (string_to_number s)
  | VObj _ | VArr _ _ => s ← to_string_value v; Ret (string_to_number s)
  end.

(** [v[k] = x] in strict mode (the engine is a module): assigning to a
    property of a primitive throws.  Writing an element at or past the end
    of an array grows it; writing its [length] resizes it, or throws when
    the value is not a length.  The write makes or changes a property of
    the value's own, which is what the code does under every name but
    [__proto__], whose assignment goes to a setter: the statements on
    writes keep off that name. *)
Definition put_prop (v : value) (k : string) (x : value) : result value :=
  match v with
  | VObj props => Ret (VObj (<[k := x]> props))
  | VArr len props =>
      if str_eqb k "length" then
        newLen ← to_number_value x;
        match uint32_of_number newLen with
        | Some n =>
            Ret (VArr n (filter (λ kv, kept_at_length n kv.1 = true) props))
        | None => Throw RangeError
        end
      else
        let len' := match array_index k with
                    | Some i => N.max len (i + 1)
                    | None => len
                    end in
        Ret (VArr len' (<[k := x]> props))
  | _ => Throw TypeError
  end.

End Conversions.

(* ====================================================================== *)
(** * JSONPath resolution *)
(* ====================================================================== *)

(** [path.slice(1).split(".").filter((s) => s.length > 0)] *)
Definition path_segments (path : string) : list string :=
  List.filter (λ s, (0 <? String.length s)%nat) (split "." (slice1 path)).

(** The two regular expressions of the path functions: one or more word
    characters, an opening bracket, then one or more digits (or, in
    [resolveJSONPath] only, a star), a closing bracket and the end of the
    segment.  The result is the captured property name and index.  A word
    character is never a bracket and a digit never a closing bracket, so
    the match, when there is one, takes the longest run of each. *)
Definition bracket_match (wildcard : bool) (segment : string) : option (string * string) :=
  let '(propName, rest) := str_span is_word segment in
  match propName, rest with
  | String _ _, String "[" inner =>
      let '(digits, close) := str_span is_digit inner in
      if negb (str_eqb digits "") && str_eqb close "]" then Some (propName, digits)
      else if wildcard && str_eqb inner "*]" then Some (propName, "*")
      else None
  | _, _ => None
  end.

Definition match_array_segment : string → option (string * string) := bracket_match true.
Definition match_index_segment : string → option (string * string) := bracket_match false.

(** One turn of the loop of [resolveJSONPath] either returns from the
    function or goes on with the next [current]. *)
Inductive flow : Type :=
  | Return (v : value)
  | Next (current : value).

Definition resolve_segment (segment : string) (current : value) : result flow :=
  if is_nullish current then Ret (Return VUndef)
  else
    match match_array_segment segment with
    | Some (propName, indexOrWildcard) =>
        if negb (str_eqb (typeof current) "object") then Ret (Return VUndef)
        else
          current ← get_prop current propName;
          if negb (isArray current) then Ret (Return VUndef)
          else if str_eqb indexOrWildcard "*" then Ret (Return current)
          else
            let index := parse_digits indexOrWildcard in
            current ← get_prop current (index_key index);
            Ret (Next current)
    | None =>
        if negb (str_eqb (typeof current) "object") then Ret (Return VUndef)
        else
          current ← get_prop current segment;
          Ret (Next current)
    end.

Fixpoint resolve_loop (segments : list string) (current : value) : result value :=
  match segments with
  | [] => Ret current
  | segment :: rest =>
      step ← resolve_segment segment current;
      match step with
      | Return v => Ret v
      | Next current => resolve_loop rest current
      end
  end.

Definition invalid_path (path : string) : js_error :=
  Error ("Invalid JSONPath: must start with $. Got: " +:+ path).

Definition resolveJSONPath (path : string) (data : value) : result value :=
  if negb (startsWith path "$") then Throw (invalid_path path)
  else resolve_loop (path_segments path) data.

Section SetPath.
Context {rt : Runtime}.

(** The loop of [setJSONPath] over all segments but the last, then the
    assignment at the last one.  With no segment at all the last one is
    [undefined], and the assignment goes to the property of that name. *)
Fixpoint set_loop (segments : list string) (current : value) (v : value) : result value :=
  match segments with
  | [] => put_prop current "undefined" v
  | [lastSegment] => put_prop current lastSegment v
  | segment :: rest =>
      match match_index_segment segment with
      | Some (propName, indexStr) =>
          let index := parse_digits indexStr in
          found ← get_prop current propName;
          current ← (if negb (truthy found) then put_prop current propName empty_array
                     else Ret current);
          arr ← get_prop current propName;
          found ← get_prop arr (index_key index);
          arr ← (if negb (truthy found) then put_prop arr (index_key index) empty_object
                 else Ret arr);
          next ← get_prop arr (index_key index);
          next ← set_loop rest next v;
          Ret (store current propName (store arr (index_key index) next))
      | None =>
          found ← get_prop current segment;
          current ← (if negb (truthy found) then put_prop current segment empty_object
                     else Ret current);
          next ← get_prop current segment;
          next ← set_loop rest next v;
          Ret (store current segment next)
      end
  end.

Definition setJSONPath (path : string) (data : value) (v : value) : result value :=
  if negb (startsWith path "$") then Throw (invalid_path path)
  else set_loop (path_segments path) data v.

End SetPath.

(* ====================================================================== *)
(** * Enumerations ([enums.ts]) *)
(* ====================================================================== *)

Inductive FieldDataType : Type :=
  | STRING | CURRENCY | NUMBER | CHECKBOX | DATE | SSN | EIN | PHONE | PERCENTAGE.

(** The string each member stands for, the key of a type default. *)
Definition FieldDataType_code (t : FieldDataType) : string :=
  match t with
  | STRING => "string"
  | CURRENCY => "currency"
  | NUMBER => "number"
  | CHECKBOX => "checkbox"
  | DATE => "date"
  | SSN => "ssn"
  | EIN => "ein"
  | PHONE => "phone"
  | PERCENTAGE => "percentage"
  end.

Inductive ValidationType : Type :=
  | REQUIRED | MIN_LENGTH | MAX_LENGTH | PATTERN | RANGE | CUSTOM | CROSS_FIELD | LUHN.

Inductive ValidationSeverity : Type :=
  | ERROR | WARNING | INFO.

Inductive ComparisonOperator : Type :=
  | EQUALS | NOT_EQUALS
  | GREATER_THAN | GREATER_THAN_OR_EQUALS | LESS_THAN | LESS_THAN_OR_EQUALS
  | CONTAINS | NOT_CONTAINS | STARTS_WITH | ENDS_WITH
  | IS_EMPTY | IS_NOT_EMPTY
  | IN | NOT_IN
  | MATCHES_PATTERN.

Inductive LogicalOperator : Type :=
  | AND | OR | NOT | XOR.

Inductive ConditionalAction : Type :=
  | SHOW | HIDE | ENABLE | DISABLE | SET_VALUE | CLEAR_VALUE | REQUIRE | OPTIONAL
  | APPLY_STYLE.

Inductive CurrencyFormat : Type :=
  | USD | USD_NO_SYMBOL | USD_WITH_CENTS | USD_WHOLE.

#[global] Instance ValidationType_eq_dec : EqDecision ValidationType.
Proof. solve_decision. Defined.
#[global] Instance ValidationSeverity_eq_dec : EqDecision ValidationSeverity.
Proof. solve_decision. Defined.
#[global] Instance ConditionalAction_eq_dec : EqDecision ConditionalAction.
Proof. solve_decision. Defined.

(* ====================================================================== *)
(** * Blueprints ([interfaces.ts]) *)
(* ====================================================================== *)

(** The interfaces, with the members the engine reads.  An optional member
    is an [option]. *)

(** [FormattingRules] is a flat mapping of style keys to values. *)
Abbreviation FormattingRules := (gmap string value).

(** [GlobalStyleDefinition extends FormattingRules]: the style keys of the
    blueprint and, under the key [typeDefaults], the defaults per data
    type. *)
Record GlobalStyleDefinition : Type := {
  ownRules : FormattingRules;
  typeDefaults : option (gmap string FormattingRules);
}.

Record ValidationRule : Type := {
  rule_type : ValidationType;
  rule_message : string;
  rule_severity : option ValidationSeverity;
  rule_length : option number;
  rule_min : option number;
  rule_max : option number;
  rule_pattern : option string;
}.

(** A comparison value is a string, a number, a boolean or an array of
    these. *)
Inductive scalar : Type :=
  | SString (s : string)
  | SNumber (n : number)
  | SBoolean (b : bool).

Inductive comparison_value : Type :=
  | Scalar (x : scalar)
  | Array (xs : list scalar).

Record Condition : Type := {
  cond_source : string;
  cond_operator : ComparisonOperator;
  cond_value : comparison_value;
}.

Record ConditionalLogic : Type := {
  conditions : list Condition;
  logic_operator : LogicalOperator;
  action : ConditionalAction;
}.

Record DataBinding : Type := {
  path : string;
}.

Record FieldAnnotation : Type := {
  field_id : string;
  lineNumber : option string;
  dataType : FieldDataType;
  dataBinding : DataBinding;
  formatting : option FormattingRules;
  validations : option (list ValidationRule);
  conditionalLogic : option ConditionalLogic;
  stylePreset : option string;
}.

Record PageDefinition : Type := {
  pageNumber : N;
  fields : list FieldAnnotation;
}.

Record FormBlueprint : Type := {
  pages : list PageDefinition;
  globalStyles : option GlobalStyleDefinition;
  stylePresets : option (gmap string FormattingRules);
}.

(* ====================================================================== *)
(** * Field utilities *)
(* ====================================================================== *)

Fixpoint find_in_pages (ps : list PageDefinition) (fieldId : string) : option FieldAnnotation :=
  match ps with
  | [] => None
  | page :: rest =>
      match List.find (λ f, str_eqb (field_id f) fieldId) (fields page) with
      | Some field => Some field
      | None => find_in_pages rest fieldId
      end
  end.

Definition findFieldById (blueprint : FormBlueprint) (fieldId : string) : option FieldAnnotation :=
  find_in_pages (pages blueprint) fieldId.

(** The own properties of a global style object: its style keys and its
    [typeDefaults], which is what a spread of it copies. *)
Definition global_style_properties (gs : GlobalStyleDefinition) : gmap string value :=
  match typeDefaults gs with
  | Some defaults => <["typeDefaults" := VObj (VObj <$> defaults)]> (ownRules gs)
  | None => ownRules gs
  end.

(** The spread [{ ...merged, ...over }]: the keys of [over] win. *)
Definition spread (merged over : gmap string value) : gmap string value := over ∪ merged.

(** The optional chains [blueprint.globalStyles?.typeDefaults?.[dataType]]
    and [blueprint.stylePresets?.[name]]. *)
Definition type_default (blueprint : FormBlueprint) (t : FieldDataType) : option FormattingRules :=
  match globalStyles blueprint with
  | Some gs =>
      match typeDefaults gs with
      | Some defaults => defaults !! FieldDataType_code t
      | None => None
      end
  | None => None
  end.

Definition style_preset (blueprint : FormBlueprint) (name : string) : option FormattingRules :=
  match stylePresets blueprint with
  | Some presets => presets !! name
  | None => None
  end.

Definition getMergedFormatting (blueprint : FormBlueprint) (field : FieldAnnotation) : FormattingRules :=
  let merged : FormattingRules := ∅ in
  (* 1. Apply global styles *)
  let merged : FormattingRules :=
    match globalStyles blueprint with
    | Some gs => delete "typeDefaults" (spread ∅ (global_style_properties gs))
    | None => merged
    end in
  (* 2. Apply type-specific defaults *)
  let merged : FormattingRules :=
    match type_default blueprint (dataType field) with
    | Some defaults => spread merged defaults
    | None => merged
    end in
  (* 3. Apply style preset *)
  let merged : FormattingRules :=
    match stylePreset field with
    | Some name =>
        if negb (str_eqb name "") then
          match style_preset blueprint name with
          | Some preset => spread merged preset
          | None => merged
          end
        else merged
    | None => merged
    end in
  (* 4. Apply field-specific formatting *)
  let merged : FormattingRules :=
    match formatting field with
    | Some own => spread merged own
    | None => merged
    end in
  merged.

(* ====================================================================== *)
(** * Conditional logic evaluation *)
(* ====================================================================== *)

Definition value_of_scalar (x : scalar) : value :=
  match x with
  | SString s => VStr s
  | SNumber n => VNum n
  | SBoolean b => VBool b
  end.

Definition value_of_comparison (t : comparison_value) : value :=
  match t with
  | Scalar x => value_of_scalar x
  | Array xs => array_of_list (value_of_scalar <$> xs)
  end.

(** [v === x] for a scalar [x]: the same type and the same value. *)
Definition strict_equals (v : value) (x : scalar) : bool :=
  match v, x with
  | VStr s, SString t => str_eqb s t
  | VNum n, SNumber m => num_eq n m
  | VBool b, SBoolean c => bool_decide (b = c)
  | _, _ => false
  end.

(** [v === t] for a comparison value [t].  An array is equal to itself
    only, and the array of a condition is no value of the record. *)
Definition strict_equals_target (v : value) (t : comparison_value) : bool :=
  match t with
  | Scalar x => strict_equals v x
  | Array _ => false
  end.

(** [xs.includes(v)]: SameValueZero against each element. *)
Definition array_includes (xs : list scalar) (v : value) : bool :=
  existsb (λ x, match v, x with
                | VNum n, SNumber m => num_same_value_zero n m
                | _, _ => strict_equals v x
                end) xs.

(** [results.every((r) => r)], [results.some((r) => r)], [!results[0]]
    and [results.filter((r) => r).length === 1]. *)
Definition combine_results (operator : LogicalOperator) (results : list bool) : bool :=
  match operator with
  | AND => forallb (λ r, r) results
  | OR => existsb (λ r, r) results
  | NOT => negb (truthy (default VUndef (VBool <$> results !! 0%nat)))
  | XOR => (length (List.filter (λ r, r) results) =? 1)%nat
  end.

(** The source of a condition is a path when it starts with the root
    marker, and the identifier of a field otherwise, which stands for the
    path the field is bound to; the source value of an unknown field stays
    [undefined]. *)
Definition resolve_source (condition : Condition) (data : value)
    (blueprint : FormBlueprint) : result value :=
  if startsWith (cond_source condition) "$" then
    (* JSONPath *)
    resolveJSONPath (cond_source condition) data
  else
    (* Field ID - resolve through data binding *)
    match findFieldById blueprint (cond_source condition) with
    | Some field => resolveJSONPath (path (dataBinding field)) data
    | None => Ret VUndef
    end.

Section Conditions.
Context {rt : Runtime}.

(** [new RegExp(pattern).test(s)] *)
Definition regexp_matches (pattern s : string) : result bool :=
  match regexp_test pattern s with
  | Some b => Ret b
  | None => Throw SyntaxError
  end.

Definition evaluateCondition (condition : Condition) (data : value)
    (blueprint : FormBlueprint) : result bool :=
  (* Resolve the source value (could be JSONPath or field ID) *)
  sourceValue ← resolve_source condition data blueprint;
  let targetValue := cond_value condition in
  let target := value_of_comparison targetValue in
  match cond_operator condition with
  | EQUALS => Ret (strict_equals_target sourceValue targetValue)
  | NOT_EQUALS => Ret (negb (strict_equals_target sourceValue targetValue))
  | GREATER_THAN =>
      a ← to_number_value sourceValue; b ← to_number_value target; Ret (num_gt a b)
  | GREATER_THAN_OR_EQUALS =>
      a ← to_number_value sourceValue; b ← to_number_value target; Ret (num_ge a b)
  | LESS_THAN =>
      a ← to_number_value sourceValue; b ← to_number_value target; Ret (num_lt a b)
  | LESS_THAN_OR_EQUALS =>
      a ← to_number_value sourceValue; b ← to_number_value target; Ret (num_le a b)
  | CONTAINS =>
      s ← to_string_value sourceValue; t ← to_string_value target; Ret (includes s t)
  | IS_EMPTY =>
      Ret (is_nullish sourceValue || strict_equals sourceValue (SString ""))
  | IS_NOT_EMPTY =>
      Ret (negb (is_nullish sourceValue) && negb (strict_equals sourceValue (SString "")))
  | IN =>
      match targetValue with
      | Array xs => Ret (array_includes xs sourceValue)
      | Scalar _ => Ret false
      end
  | NOT_IN =>
      match targetValue with
      | Array xs => Ret (negb (array_includes xs sourceValue))
      | Scalar _ => Ret true
      end
  | MATCHES_PATTERN =>
      match sourceValue, targetValue with
      | VStr s, Scalar (SString pattern) => regexp_matches pattern s
      | _, _ => Ret false
      end
  | NOT_CONTAINS | STARTS_WITH | ENDS_WITH => Ret false
  end.

(** [logic.conditions.map(...)]: every condition is evaluated, in order. *)
Definition evaluate_conditions (cs : list Condition) (data : value)
    (blueprint : FormBlueprint) : result (list bool) :=
  mapM (λ condition, evaluateCondition condition data blueprint) cs.

Definition evaluateConditionalLogic (logic : ConditionalLogic) (data : value)
    (blueprint : FormBlueprint) : result bool :=
  results ← evaluate_conditions (conditions logic) data blueprint;
  Ret (combine_results (logic_operator logic) results).

End Conditions.

(* ====================================================================== *)
(** * Validation utilities *)
(* ====================================================================== *)

Record ValidationError : Type := {
  err_fieldId : string;
  err_lineNumber : option string;
  err_message : string;
  err_severity : ValidationSeverity;
  err_rule : ValidationType;
  actualValue : value;
  expectedValue : option value;
}.

Record ValidationResult : Type := {
  isValid : bool;
  errors : list ValidationError;
  warnings : list ValidationError;
}.

(** A number that may be missing, as a value. *)
Definition optional_number (n : option number) : value :=
  match n with
  | Some n => VNum n
  | None => VUndef
  end.

Section Validation.
Context {rt : Runtime}.

(** A number that may be missing, inside a template literal. *)
Definition template_number (n : option number) : string :=
  match n with
  | Some n => number_to_string n
  | None => "undefined"
  end.

Definition validateRule (field : FieldAnnotation) (v : value) (rule : ValidationRule)
    : result (option ValidationError) :=
  let severity := default ERROR (rule_severity rule) in
  let report (actual : value) (expected : option value) : ValidationError :=
    {| err_fieldId := field_id field;
       err_lineNumber := lineNumber field;
       err_message := rule_message rule;
       err_severity := severity;
       err_rule := rule_type rule;
       actualValue := actual;
       expectedValue := expected |} in
  match rule_type rule with
  | REQUIRED =>
      if is_nullish v || strict_equals v (SString "") then Ret (Some (report v None))
      else Ret None
  | MIN_LENGTH =>
      match v with
      | VStr s =>
          let len := number_of_N (N.of_nat (String.length s)) in
          if num_lt len (default pos_zero (rule_length rule)) then
            Ret (Some (report (VNum len) (Some (optional_number (rule_length rule)))))
          else Ret None
      | _ => Ret None
      end
  | MAX_LENGTH =>
      match v with
      | VStr s =>
          let len := number_of_N (N.of_nat (String.length s)) in
          if num_gt len (default (S754_infinity false) (rule_length rule)) then
            Ret (Some (report (VNum len) (Some (optional_number (rule_length rule)))))
          else Ret None
      | _ => Ret None
      end
  | PATTERN =>
      match v, rule_pattern rule with
      | VStr s, Some pattern =>
          if negb (str_eqb pattern "") then
            ok ← regexp_matches pattern s;
            if negb ok then Ret (Some (report v (Some (VStr pattern)))) else Ret None
          else Ret None
      | _, _ => Ret None
      end
  | RANGE =>
      match v with
      | VNum n =>
          let below := match rule_min rule with
                       | Some lo => num_lt n lo
                       | None => false
                       end in
          let above := match rule_max rule with
                       | Some hi => num_gt n hi
                       | None => false
                       end in
          if below then
            Ret (Some (report v (Some (VStr ("min: " +:+ template_number (rule_min rule))))))
          else if above then
            Ret (Some (report v (Some (VStr ("max: " +:+ template_number (rule_max rule))))))
          else Ret None
      | _ => Ret None
      end
  | CUSTOM | CROSS_FIELD | LUHN => Ret None
  end.

(** The loop of [validateField]: one error for each rule that fails. *)
Fixpoint validate_rules (field : FieldAnnotation) (v : value) (rules : list ValidationRule)
    (errors : list ValidationError) : result (list ValidationError) :=
  match rules with
  | [] => Ret errors
  | rule :: rest =>
      error ← validateRule field v rule;
      match error with
      | Some error => validate_rules field v rest (errors ++ [error])
      | None => validate_rules field v rest errors
      end
  end.

Definition validateField (field : FieldAnnotation) (v : value) : result (list ValidationError) :=
  match validations field with
  | None => Ret []
  | Some rules => validate_rules field v rules []
  end.

(** The two lists [validateForm] fills: [errors] and [warnings]. *)
Definition buckets : Type := list ValidationError * list ValidationError.

(** The inner loop of [validateForm] over the errors of one field. *)
Fixpoint bucket_errors (fieldErrors : list ValidationError) (acc : buckets) : buckets :=
  match fieldErrors with
  | [] => acc
  | error :: rest =>
      if bool_decide (err_severity error = ERROR) then
        bucket_errors rest (acc.1 ++ [error], acc.2)
      else
        bucket_errors rest (acc.1, acc.2 ++ [error])
  end.

(** The body of the loop over the fields of a page. *)
Definition validate_form_field (blueprint : FormBlueprint) (data : value)
    (field : FieldAnnotation) (acc : buckets) : result buckets :=
  (* Skip validation for fields hidden by conditional logic *)
  skip ←
    match conditionalLogic field with
    | Some logic =>
        shouldShow ← evaluateConditionalLogic logic data blueprint;
        Ret (negb shouldShow && bool_decide (action logic = SHOW))
    | None => Ret false
    end;
  if (skip : bool) then Ret acc
  else
    v ← resolveJSONPath (path (dataBinding field)) data;
    fieldErrors ← validateField field v;
    Ret (bucket_errors fieldErrors acc).

Fixpoint validate_fields (blueprint : FormBlueprint) (data : value)
    (fs : list FieldAnnotation) (acc : buckets) : result buckets :=
  match fs with
  | [] => Ret acc
  | field :: rest =>
      acc ← validate_form_field blueprint data field acc;
      validate_fields blueprint data rest acc
  end.

Fixpoint validate_pages (blueprint : FormBlueprint) (data : value)
    (ps : list PageDefinition) (acc : buckets) : result buckets :=
  match ps with
  | [] => Ret acc
  | page :: rest =>
      acc ← validate_fields blueprint data (fields page) acc;
      validate_pages blueprint data rest acc
  end.

Definition validateForm (blueprint : FormBlueprint) (data : value) : result ValidationResult :=
  acc ← validate_pages blueprint data (pages blueprint) ([], []);
  Ret {| isValid := (length acc.1 =? 0)%nat; errors := acc.1; warnings := acc.2 |}.

End Validation.

(* ====================================================================== *)
(** * Formatting utilities *)
(* ====================================================================== *)

(** The positions the pattern of [addThousandsSeparators] matches: not at a
    word boundary, and followed by one or more groups of three digits and
    then no digit. *)
Definition not_word_boundary (prev : option ascii) (next : option ascii) : bool :=
  bool_decide (from_option is_word false prev = from_option is_word false next).

Definition groups_of_three_ahead (s : string) : bool :=
  let run := String.length (str_span is_digit s).1 in
  (0 <? run)%nat && (run mod 3 =? 0)%nat.

(** [s.replace(pattern, ",")] for that pattern, with the flag [g]: a comma
    at every position that matches; [prev] is the character before [s]. *)
Fixpoint insert_separators (prev : option ascii) (s : string) : string :=
  let here :=
    if not_word_boundary prev (str_head s) && groups_of_three_ahead s then "," else "" in
  match s with
  | EmptyString => here
  | String c r => here +:+ String c (insert_separators (Some c) r)
  end.

Definition addThousandsSeparators (numStr : string) : string :=
  match split "." numStr with
  | part :: parts => String.concat "." (insert_separators None part :: parts)
  | [] => ""
  end.

Section Formatting.
Context {rt : Runtime}.

(** The parameters with a default are optional: [None] is an argument
    left out.  [decimalPlaces] is taken as an integer. *)
Definition formatCurrency (v : number) (format : option CurrencyFormat)
    (decimalPlaces : option Z) (thousandsSeparator : option bool) : result string :=
  let format := default USD_NO_SYMBOL format in
  let decimalPlaces := default 0%Z decimalPlaces in
  let thousandsSeparator := default true thousandsSeparator in
  let absValue := SFabs v in
  let isNegative := num_lt v pos_zero in
  formatted ←
    match format with
    | USD =>
        formatted ← toFixed absValue decimalPlaces;
        let formatted :=
          if thousandsSeparator then addThousandsSeparators formatted else formatted in
        Ret ("$" +:+ formatted)
    | USD_NO_SYMBOL =>
        formatted ← toFixed absValue decimalPlaces;
        Ret (if thousandsSeparator then addThousandsSeparators formatted else formatted)
    | USD_WITH_CENTS =>
        formatted ← toFixed absValue 2;
        Ret (if thousandsSeparator then addThousandsSeparators formatted else formatted)
    | USD_WHOLE =>
        let formatted := number_to_string (math_round absValue) in
        Ret (if thousandsSeparator then addThousandsSeparators formatted else formatted)
    end;
  Ret (if isNegative then "(" +:+ formatted +:+ ")" else formatted).

End Formatting.

(** [ssn.replace(/\D/g, "")] keeps the digits. *)
Definition formatSSN (ssn : string) (showSeparators : option bool) (mask : option bool) : string :=
  let showSeparators := default true showSeparators in
  let mask := default false mask in
  (* Remove any existing dashes *)
  let digits := str_filter is_digit ssn in
  if negb (String.length digits =? 9)%nat then ssn (* Return as-is if not valid *)
  else if mask then "***-**-" +:+ str_drop 5 digits
  else if showSeparators then
    str_take 3 digits +:+ "-" +:+ str_take 2 (str_drop 3 digits) +:+ "-" +:+ str_drop 5 digits
  else digits.

(* ====================================================================== *)
(** * A runtime for closed examples *)
(* ====================================================================== *)

(** The properties below hold for every runtime.  To run the engine on
    closed inputs one is fixed here: its number parser reads a string of
    decimal digits (anything else is NaN), its digit generator returns the
    digits of an integer, and its only patterns are plain words, which
    match the strings that contain them. *)
Definition sample_runtime : Runtime := {|
  string_to_number := λ s,
    if negb (str_eqb s "") && str_forallb is_digit s
    then number_of_N (parse_digits s) else NaN;
  shortest_digits := λ m e, (default (Npos m) (integer_value m e), 0%Z);
  regexp_test := λ pattern s,
    if str_forallb is_word pattern then Some (includes s pattern) else None;
|}.

(* ====================================================================== *)
(** * The notions the properties are stated with *)
(* ====================================================================== *)

(** The four tiers of a field, lowest first, read off the entries of the
    blueprint and of the field; a tier that is absent is the empty
    mapping.  The type tier is the entry of [typeDefaults] under the string
    of the data type of the field.  The preset tier is the entry of
    [stylePresets] under the name the field gives, a name being a string
    that is not empty. *)
Definition global_tier (blueprint : FormBlueprint) : FormattingRules :=
  match globalStyles blueprint with
  | Some gs => delete "typeDefaults" (ownRules gs)
  | None => ∅
  end.

Definition type_tier (blueprint : FormBlueprint) (field : FieldAnnotation) : FormattingRules :=
  match globalStyles blueprint with
  | Some {| typeDefaults := Some defaults |} =>
      default ∅ (defaults !! FieldDataType_code (dataType field))
  | _ => ∅
  end.

Definition preset_tier (blueprint : FormBlueprint) (field : FieldAnnotation) : FormattingRules :=
  match stylePreset field, stylePresets blueprint with
  | Some name, Some presets => if decide (name = "") then ∅ else default ∅ (presets !! name)
  | _, _ => ∅
  end.

Definition field_tier (field : FieldAnnotation) : FormattingRules :=
  default ∅ (formatting field).

(** The first tier, from the highest, that has the key. *)
Definition first_defined (tiers : list FormattingRules) (k : string) : option value :=
  foldr (λ tier found, match tier !! k with
                        | Some v => Some v
                        | None => found
                        end) None tiers.

(** The names every object inherits from [Object.prototype], and those
    an array inherits from [Array.prototype] and [Object.prototype]
    (ECMAScript 2024).  A record is modelled with the properties of its
    own: [get_prop] and [put_prop] are the reads and writes of the code
    for every name but these, so what is said of a walk through a record
    is said of walks that keep off them. *)
Definition inherited_names : list string :=
  ["__proto__"; "constructor"; "hasOwnProperty"; "isPrototypeOf";
   "propertyIsEnumerable"; "toLocaleString"; "toString"; "valueOf";
   "__defineGetter__"; "__defineSetter__"; "__lookupGetter__"; "__lookupSetter__"].

Definition array_inherited_names : list string :=
  ["at"; "concat"; "copyWithin"; "entries"; "every"; "fill"; "filter"; "find";
   "findIndex"; "findLast"; "findLastIndex"; "flat"; "flatMap"; "forEach";
   "includes"; "indexOf"; "join"; "keys"; "lastIndexOf"; "map"; "pop"; "push";
   "reduce"; "reduceRight"; "reverse"; "shift"; "slice"; "some"; "sort"; "splice";
   "toReversed"; "toSorted"; "toSpliced"; "unshift"; "values"; "with"]
  ++ inherited_names.

Definition inherits (current : value) (k : string) : bool :=
  match current with
  | VObj _ => bool_decide (k ∈ inherited_names)
  | VArr _ _ => bool_decide (k ∈ array_inherited_names)
  | _ => false
  end.


(** The properties of an object or of an array by name. *)
Definition properties (v : value) : gmap string value :=
  match v with
  | VObj props | VArr _ props => props
  | _ => ∅
  end.

(** [own_slot current k]: [current] is an object or an array, and [k] is
    a name under which a property of its own can be read and written: none
    it inherits, and not the [length] of an array. *)
Definition own_slot (current : value) (k : string) : bool :=
  match current with
  | VObj _ => negb (inherits current k)
  | VArr _ _ => negb (inherits current k) && negb (str_eqb k "length")
  | _ => false
  end.



(** [reaches pre data current]: the loop, started on [data], goes through
    the segments [pre] without returning and stands at [current]. *)
Fixpoint reaches (pre : list string) (data current : value) : Prop :=
  match pre with
  | [] => current = data
  | segment :: rest =>
      ∃ next, resolve_segment segment data = Ret (Next next) ∧ reaches rest next current
  end.




(** An identifier is one or more word characters. *)
Definition is_identifier (s : string) : bool :=
  negb (str_eqb s "") && str_forallb is_word s.

(** The invariant of the data model on binding paths: each begins with the
    root marker. *)
Definition binding_paths_rooted (blueprint : FormBlueprint) : bool :=
  forallb (λ page, forallb (λ field, startsWith (path (dataBinding field)) "$")
                           (fields page))
          (pages blueprint).

(** The operators [evaluateCondition] has a case for. *)
Definition handled_operator (operator : ComparisonOperator) : bool :=
  match operator with
  | NOT_CONTAINS | STARTS_WITH | ENDS_WITH => false
  | _ => true
  end.

(** Exactly one of the results is true. *)
Definition exactly_one_true (results : list bool) : Prop :=
  ∃ i, results !! i = Some true ∧ ∀ j, results !! j = Some true → j = i.

(** A path without wildcard, as the grammar has it: the root marker, then
    segments that are identifiers or an identifier and an index. *)
Definition valid_segment (segment : string) : bool :=
  is_identifier segment || bool_decide (is_Some (match_index_segment segment)).

Definition valid_path (path : string) : bool :=
  startsWith path "$" && forallb valid_segment (path_segments path).

(** [path_fits segments current]: the record [current] has room for the
    path.  Its last segment is a plain name, not a name and an index.
    Each segment before it is a plain name or a name and an index (an
    exact one), and what the record holds there is either nothing (or a
    falsy value), which the walk replaces, or a container of the kind the
    segment asks for: an object or an array under a plain name, and under a
    name and an index an array whose element is nothing, falsy, an object
    or an array.  Every name on the way is one under which the container
    has a property of its own (see [own_slot]).  The condition is enough
    for the round trip; it is not the weakest one. *)
Fixpoint path_fits (segments : list string) (current : value) : bool :=
  match segments with
  | [] => false
  | [lastSegment] =>
      own_slot current lastSegment
      && bool_decide (match_array_segment lastSegment = None)
  | segment :: rest =>
      match match_index_segment segment with
      | Some (propName, indexStr) =>
          own_slot current propName
          && (parse_digits indexStr <? 2 ^ 53)%N
          && (let found := default VUndef (properties current !! propName) in
              if truthy found then
                match found with
                | VArr _ elements =>
                    let element :=
                      default VUndef (elements !! index_key (parse_digits indexStr)) in
                    path_fits rest (if truthy element then element else empty_object)
                | _ => false
                end
              else path_fits rest empty_object)
      | None =>
          own_slot current segment
          && bool_decide (match_array_segment segment = None)
          && (let found := default VUndef (properties current !! segment) in
              path_fits rest (if truthy found then found else empty_object))
      end
  end.

(** A string is wrapped in parentheses. *)
Definition parenthesized (s : string) : bool :=
  bool_decide (str_head s = Some "("%char) && bool_decide (str_last s = Some ")"%char).

(** A number with no minus sign to print: NaN, a zero, or a number with
    the positive sign. *)
Definition unsigned (x : number) : bool :=
  match x with
  | S754_nan | S754_zero _ => true
  | S754_infinity s | S754_finite s _ _ => negb s
  end.

(** The first character of an unsigned number in print: a digit, or the
    first letter of [Infinity] or [NaN]. *)
Definition unsigned_head (s : string) : bool :=
  match str_head s with
  | Some c => is_digit c || bool_decide (c = "I"%char) || bool_decide (c = "N"%char)
  | None => false
  end.

(** The decimal places [toFixed] accepts. *)
Definition places_in_range (format : option CurrencyFormat) (decimalPlaces : option Z) : bool :=
  match default USD_NO_SYMBOL format with
  | USD | USD_NO_SYMBOL =>
      (0 <=? default 0 decimalPlaces)%Z && (default 0 decimalPlaces <=? 100)%Z
  | USD_WITH_CENTS | USD_WHOLE => true
  end.

(** The first character of the digits [formatCurrency] renders: the
    dollar sign, or that of an unsigned number. *)
Definition currency_head (body : string) : Prop :=
  str_head body = Some "$"%char ∨ unsigned_head body = true.

(* ====================================================================== *)
(** * More of the field utilities *)
(* ====================================================================== *)

(** [blueprint.pages.find((p) => p.pageNumber === pageNumber)], then the
    fields of the page found, or none. *)
Definition getFieldsByPage (blueprint : FormBlueprint) (number : N) : list FieldAnnotation :=
  match List.find (λ p, (pageNumber p =? number)%N) (pages blueprint) with
  | Some page => fields page
  | None => []
  end.

(** All the fields of a blueprint, page after page. *)
Definition all_fields (blueprint : FormBlueprint) : list FieldAnnotation :=
  flat_map fields (pages blueprint).

(** The ordering operators. *)
Definition ordering_operator (operator : ComparisonOperator) : bool :=
  match operator with
  | GREATER_THAN | GREATER_THAN_OR_EQUALS | LESS_THAN | LESS_THAN_OR_EQUALS => true
  | _ => false
  end.

(** The operators that convert the source value, to a number or to a
    string. *)
Definition converting_operator (operator : ComparisonOperator) : bool :=
  ordering_operator operator
  || match operator with
     | CONTAINS => true
     | _ => false
     end.

(** The operator that asks the opposite, for the three pairs that have
    one. *)
Definition opposite_operator (operator : ComparisonOperator) : option ComparisonOperator :=
  match operator with
  | EQUALS => Some NOT_EQUALS
  | IS_EMPTY => Some IS_NOT_EMPTY
  | IN => Some NOT_IN
  | _ => None
  end.

(** [Object.values(FieldDataType)]: the members in the order they are
    declared in. *)
Definition FieldDataType_values : list FieldDataType :=
  [STRING; CURRENCY; NUMBER; CHECKBOX; DATE; SSN; EIN; PHONE; PERCENTAGE].

#[global] Instance FieldDataType_eq_dec : EqDecision FieldDataType.
Proof. solve_decision. Defined.

(** The type guard of [types/index.ts]:
    [Object.values(FieldDataType).includes(value)]. *)
Definition isFieldDataType (v : value) : bool :=
  array_includes ((λ t, SString (FieldDataType_code t)) <$> FieldDataType_values) v.

(** The summary [summarizeBlueprint] computes: the number of pages, the
    number of fields and the number of fields of each data type, under the
    string of the type.  The entries [id], [version] and [groupCount] of
    the summary are copies of entries of the blueprint that are not
    modelled here.  The counts are whole numbers, exact as doubles as long
    as they stay below [2^53]. *)
Record BlueprintSummary : Type := {
  pageCount : N;
  totalFields : N;
  fieldsByType : gmap string N;
}.

(** The body of the inner loop:
    [totalFields++; fieldsByType[t] = (fieldsByType[t] || 0) + 1]. *)
Definition count_field (counts : N * gmap string N) (field : FieldAnnotation)
    : N * gmap string N :=
  let code := FieldDataType_code (dataType field) in
  ((counts.1 + 1)%N, <[code := (default 0 (counts.2 !! code) + 1)%N]> counts.2).

Definition summarizeBlueprint (blueprint : FormBlueprint) : BlueprintSummary :=
  let counts :=
    foldl (λ counts page, foldl count_field counts (fields page)) (0%N, ∅)
          (pages blueprint) in
  {| pageCount := N.of_nat (length (pages blueprint));
     totalFields := counts.1;
     fieldsByType := counts.2 |}.

(** The fields of a blueprint that have a given data type. *)
Definition fields_of_type (t : FieldDataType) (fs : list FieldAnnotation)
    : list FieldAnnotation :=
  filter (λ field, dataType field = t) fs.

(** What the loop of [summarizeBlueprint] has counted after the fields
    [fs]. *)
Definition counted (fs : list FieldAnnotation) (counts : N * gmap string N) : Prop :=
  counts.1 = N.of_nat (length fs)
  ∧ (∀ t, counts.2 !! FieldDataType_code t
          = if (length (fields_of_type t fs) =? 0)%nat then None
            else Some (N.of_nat (length (fields_of_type t fs))))
  ∧ (∀ k, is_Some (counts.2 !! k) → ∃ t, k = FieldDataType_code t).

(** A segment that asks for the whole array. *)
Definition wildcard_segment (segment : string) : bool :=
  match match_array_segment segment with
  | Some (_, indexOrWildcard) => str_eqb indexOrWildcard "*"
  | None => false
  end.

(** The values that are not objects: [undefined], [null], the booleans,
    the numbers and the strings. *)
Definition primitive (v : value) : bool :=
  match v with
  | VObj _ | VArr _ _ => false
  | _ => true
  end.


(** Every character but the comma. *)
Definition not_comma (c : ascii) : bool := negb (bool_decide (c = ","%char)).

(** The two lists of [validateForm] keep apart the errors and the rest. *)
Definition sorted_by_severity (acc : buckets) : Prop :=
  Forall (λ e, err_severity e = ERROR) acc.1
  ∧ Forall (λ e, err_severity e ≠ ERROR) acc.2.

(* ====================================================================== *)
(** * Closed examples *)
(* ====================================================================== *)

(** A record and the values in it, for the closed examples. *)
Definition object_of_list (l : list (string * value)) : value := VObj (list_to_map l).

Definition w2_forms : value :=
  array_of_list [object_of_list [("wages", VNum (number_of_Z 85000))];
                 object_of_list [("wages", VNum (number_of_Z 40000))]].

Definition taxpayer : value :=
  object_of_list [("firstName", VStr "John"); ("ssn", VStr "123456789")].

Definition sample_record : value :=
  object_of_list [("taxpayer", taxpayer);
                  ("income", object_of_list [("w2Forms", w2_forms)])].

(** A blueprint over that record: the SSN of the taxpayer, the first name
    of a spouse the record does not have, and the wages as a currency
    field with a font size of its own. *)
Definition rule_of (type : ValidationType) (message : string) : ValidationRule :=
  {| rule_type := type; rule_message := message; rule_severity := None;
     rule_length := None; rule_min := None; rule_max := None; rule_pattern := None |}.

Definition field_of (id : string) (type : FieldDataType) (binding : string) : FieldAnnotation :=
  {| field_id := id; lineNumber := None; dataType := type;
     dataBinding := {| path := binding |}; formatting := None; validations := None;
     conditionalLogic := None; stylePreset := None |}.

Definition ssn_field : FieldAnnotation := field_of "ssn" SSN "$.taxpayer.ssn".

Definition spouse_field : FieldAnnotation :=
  {| field_id := "spouseName"; lineNumber := Some "2"; dataType := STRING;
     dataBinding := {| path := "$.spouse.firstName" |}; formatting := None;
     validations := Some [rule_of REQUIRED "Spouse name is required";
                          {| rule_type := MIN_LENGTH; rule_message := "Too short";
                             rule_severity := Some WARNING;
                             rule_length := Some (number_of_Z 2); rule_min := None;
                             rule_max := None; rule_pattern := None |}];
     conditionalLogic := None; stylePreset := None |}.

Definition wages_field : FieldAnnotation :=
  {| field_id := "wages"; lineNumber := Some "1a"; dataType := CURRENCY;
     dataBinding := {| path := "$.income.w2Forms[0].wages" |};
     formatting := Some {[ "fontSize" := VNum (number_of_Z 12) ]};
     validations := None; conditionalLogic := None; stylePreset := None |}.

Definition sample_styles : GlobalStyleDefinition :=
  {| ownRules := {[ "fontSize" := VNum (number_of_Z 10) ]};
     typeDefaults := Some {[ "currency" := {[ "fontSize" := VNum (number_of_Z 11) ]} ]} |}.

Definition sample_blueprint : FormBlueprint :=
  {| pages := [ {| pageNumber := 1; fields := [ssn_field; wages_field] |};
                {| pageNumber := 2; fields := [spouse_field] |} ];
     globalStyles := Some sample_styles;
     stylePresets := None |}.

Definition spouse_blueprint : FormBlueprint :=
  {| pages := [ {| pageNumber := 1; fields := [] |};
                {| pageNumber := 2; fields := [spouse_field] |} ];
     globalStyles := None;
     stylePresets := None |}.

Definition condition_of (source : string) (operator : ComparisonOperator)
    (target : comparison_value) : Condition :=
  {| cond_source := source; cond_operator := operator; cond_value := target |}.

Definition has_first_name : Condition :=
  condition_of "$.taxpayer.firstName" IS_NOT_EMPTY (Scalar (SString "")).
Definition has_spouse : Condition :=
  condition_of "spouseName" IS_NOT_EMPTY (Scalar (SString "")).
Definition is_jane : Condition :=
  condition_of "$.taxpayer.firstName" EQUALS (Scalar (SString "Jane")).

(** A blueprint with all four tiers: a key from each, and each tier
    overridden by the next. *)
Definition styled_field : FieldAnnotation :=
  {| field_id := "refund"; lineNumber := Some "35a"; dataType := CURRENCY;
     dataBinding := {| path := "$.refund" |};
     formatting := Some {[ "alignment" := VStr "decimal" ]};
     validations := None; conditionalLogic := None; stylePreset := Some "emphasis" |}.

Definition styled_blueprint : FormBlueprint :=
  {| pages := [ {| pageNumber := 1; fields := [styled_field] |} ];
     globalStyles :=
       Some {| ownRules := {[ "fontFamily" := VStr "Helvetica";
                              "fontSize" := VNum (number_of_Z 10);
                              "color" := VStr "black";
                              "alignment" := VStr "left" ]};
               typeDefaults :=
                 Some {[ "currency" := {[ "fontSize" := VNum (number_of_Z 11);
                                         "color" := VStr "blue";
                                         "alignment" := VStr "right" ]};
                         "date" := {[ "fontSize" := VNum (number_of_Z 9) ]} ]} |};
     stylePresets :=
       Some {[ "emphasis" := {[ "color" := VStr "red"; "alignment" := VStr "center" ]};
               "quiet" := {[ "color" := VStr "grey" ]} ]} |}.

(** A record one of whose values has a [toString] of its own. *)
Definition unprintable_record : value :=
  object_of_list [("amount", object_of_list [("toString", VStr "x")])].

(** Rules with bounds, and fields the form skips or cannot read. *)
Definition percent_rule : ValidationRule :=
  {| rule_type := RANGE; rule_message := "Not a percentage"; rule_severity := None;
     rule_length := None; rule_min := Some (number_of_Z 0);
     rule_max := Some (number_of_Z 100); rule_pattern := None |}.

Definition word_rule : ValidationRule :=
  {| rule_type := PATTERN; rule_message := "No match"; rule_severity := Some INFO;
     rule_length := None; rule_min := None; rule_max := None;
     rule_pattern := Some "abc" |}.

Definition hidden_field : FieldAnnotation :=
  {| field_id := "maidenName"; lineNumber := None; dataType := STRING;
     dataBinding := {| path := "taxpayer.maidenName" |}; formatting := None;
     validations := Some [rule_of REQUIRED "Maiden name is required"];
     conditionalLogic := Some {| conditions := [is_jane]; logic_operator := AND;
                                 action := SHOW |};
     stylePreset := None |}.

Definition hidden_blueprint : FormBlueprint :=
  {| pages := [ {| pageNumber := 1; fields := [hidden_field] |} ];
     globalStyles := None; stylePresets := None |}.

Definition unrooted_blueprint : FormBlueprint :=
  {| pages := [ {| pageNumber := 1;
                   fields := [field_of "ssn" SSN "taxpayer.ssn"; spouse_field] |} ];
     globalStyles := None; stylePresets := None |}.

(* ====================================================================== *)
(** * Properties of [formatSSN] *)
(* ====================================================================== *)

(** C7.  [formatSSN] returns its input unchanged when the input does not
    hold exactly nine digits.  When it holds the nine digits
    [a b c d e f g h i], the result is [***-**-fghi] when [mask] is true,
    whatever [showSeparators] is; [abc-de-fghi] when [mask] is false and
    the separators are asked for; and [abcdefghi] otherwise.  A flag left
    out takes its default ([showSeparators] true, [mask] false). *)
Theorem formatSSN_cases (ssn : string) (showSeparators mask : option bool) :
  let digits := str_filter is_digit ssn in
  (String.length digits ≠ 9 → formatSSN ssn showSeparators mask = ssn) ∧
  (∀ a b c d e f g h i : ascii,
     digits = String a (String b (String c (String d (String e
                (String f (String g (String h (String i "")))))))) →
     Forall (λ x, is_digit x = true) [a; b; c; d; e; f; g; h; i] ∧
     formatSSN ssn showSeparators mask =
       match default false mask, default true showSeparators with
       | true, _ =>
           "***-**-" +:+ String f (String g (String h (String i "")))
       | false, true =>
           String a (String b (String c (String "-" (String d (String e
             (String "-" (String f (String g (String h (String i ""))))))))))
       | false, false =>
           String a (String b (String c (String d (String e
             (String f (String g (String h (String i ""))))))))
       end).
Proof.
  intros digits. split.
  - intros Hlen. unfold formatSSN. fold digits.
    destruct (Nat.eqb_spec (String.length digits) 9) as [E|E]; [done|reflexivity].
  - intros a b c d e f g h i Hd. split.
    + assert (Hall : str_forallb is_digit digits = true).
      { subst digits. clear Hd. induction ssn as [|x s IH]; simpl; [done|].
        destruct (is_digit x) eqn:Ex; simpl; [by rewrite Ex|done]. }
      rewrite Hd in Hall. simpl in Hall.
      repeat (apply andb_prop in Hall as [? Hall]).
      repeat constructor; assumption.
    + unfold formatSSN. fold digits. rewrite Hd. simpl.
      destruct mask as [[]|], showSeparators as [[]|]; reflexivity.
Qed.

Lemma formatSSN_cases_witness :
  formatSSN "078-05-1120" (Some true) (Some true) = "***-**-1120".
Proof.
  pose proof (formatSSN_cases "078-05-1120" (Some true) (Some true)) as [_ Hnine].
  exact (proj2 (Hnine "0" "7" "8" "0" "5" "1" "1" "2" "0" eq_refl))%char.
Defined.

(* ====================================================================== *)
(** * Properties of [getMergedFormatting] *)
(* ====================================================================== *)

Lemma spread_lookup (merged over : gmap string value) (k : string) :
  spread merged over !! k =
    match over !! k with
    | Some v => Some v
    | None => merged !! k
    end.
Proof.
  unfold spread. rewrite lookup_union.
  destruct (over !! k), (merged !! k); reflexivity.
Qed.

Lemma global_tier_spread (gs : GlobalStyleDefinition) :
  delete "typeDefaults" (spread ∅ (global_style_properties gs))
  = delete "typeDefaults" (ownRules gs).
Proof.
  unfold spread, global_style_properties. rewrite (right_id_L ∅ (∪)).
  destruct (typeDefaults gs); [apply delete_insert_eq|reflexivity].
Qed.

Lemma getMergedFormatting_tiers (blueprint : FormBlueprint) (field : FieldAnnotation) :
  getMergedFormatting blueprint field
  = field_tier field ∪ (preset_tier blueprint field
      ∪ (type_tier blueprint field ∪ global_tier blueprint)).
Proof.
  unfold getMergedFormatting, field_tier, preset_tier, type_tier, global_tier,
    type_default, style_preset.
  assert (Hglobal :
    match globalStyles blueprint with
    | Some gs => delete "typeDefaults" (spread ∅ (global_style_properties gs))
    | None => (∅ : gmap string value)
    end
    = match globalStyles blueprint with
      | Some gs => delete "typeDefaults" (ownRules gs)
      | None => ∅
      end).
  { destruct (globalStyles blueprint); [apply global_tier_spread|reflexivity]. }
  rewrite Hglobal. clear Hglobal. unfold spread, str_eqb.
  destruct (formatting field), (stylePreset field) as [name|],
    (globalStyles blueprint) as [[rules [defaults|]]|],
    (stylePresets blueprint) as [presets|]; simpl;
    try destruct (defaults !! FieldDataType_code (dataType field)); simpl;
    try (destruct (decide (name = "")) as [Hname|Hname];
         [rewrite (bool_decide_eq_true_2 _ Hname)
         |rewrite (bool_decide_eq_false_2 _ Hname)]); simpl;
    try destruct (presets !! name); simpl;
    rewrite ?(left_id_L ∅ (∪)); reflexivity.
Qed.

Lemma tiers_lookup (a b c d : FormattingRules) (k : string) :
  (a ∪ (b ∪ (c ∪ d))) !! k = first_defined [a; b; c; d] k.
Proof.
  rewrite !lookup_union. simpl.
  destruct (a !! k), (b !! k), (c !! k), (d !! k); reflexivity.
Qed.

(** C9.  The merged formatting of a field is the key-wise overlay of its
    four tiers, in increasing precedence: the global style of the
    blueprint without its [typeDefaults], the entry of [typeDefaults] for
    the data type of the field, the preset the field names if the
    blueprint has it, and the formatting of the field itself.  A key has
    the value of the highest tier that defines it.  So with a global
    [fontSize], a [fontSize] in the type default of the field and one in
    the field, the merged [fontSize] is that of the field; what the type
    default of the field says of a key shows where the preset and the
    field say nothing, and what the preset says where the field says
    nothing; and an absent tier changes nothing. *)
Theorem getMergedFormatting_overlay (blueprint : FormBlueprint) (field : FieldAnnotation) :
  (∀ k, getMergedFormatting blueprint field !! k =
        first_defined [field_tier field; preset_tier blueprint field;
                       type_tier blueprint field; global_tier blueprint] k) ∧
  (∀ gs defaults rules own (global_size type_size own_size : value),
     globalStyles blueprint = Some gs →
     ownRules gs !! "fontSize" = Some global_size →
     typeDefaults gs = Some defaults →
     defaults !! FieldDataType_code (dataType field) = Some rules →
     rules !! "fontSize" = Some type_size →
     formatting field = Some own →
     own !! "fontSize" = Some own_size →
     getMergedFormatting blueprint field !! "fontSize" = Some own_size) ∧
  (∀ gs defaults rules k v,
     globalStyles blueprint = Some gs →
     typeDefaults gs = Some defaults →
     defaults !! FieldDataType_code (dataType field) = Some rules →
     rules !! k = Some v →
     preset_tier blueprint field !! k = None →
     field_tier field !! k = None →
     getMergedFormatting blueprint field !! k = Some v) ∧
  (∀ name presets rules k v,
     stylePreset field = Some name →
     name ≠ "" →
     stylePresets blueprint = Some presets →
     presets !! name = Some rules →
     rules !! k = Some v →
     field_tier field !! k = None →
     getMergedFormatting blueprint field !! k = Some v) ∧
  (globalStyles blueprint = None →
     getMergedFormatting blueprint field
     = field_tier field ∪ preset_tier blueprint field) ∧
  (type_tier blueprint field = ∅ →
     getMergedFormatting blueprint field
     = field_tier field ∪ (preset_tier blueprint field ∪ global_tier blueprint)) ∧
  (preset_tier blueprint field = ∅ →
     getMergedFormatting blueprint field
     = field_tier field ∪ (type_tier blueprint field ∪ global_tier blueprint)) ∧
  (formatting field = None →
     getMergedFormatting blueprint field
     = preset_tier blueprint field ∪ (type_tier blueprint field ∪ global_tier blueprint)).
Proof.
  rewrite getMergedFormatting_tiers.
  split; [intros k; apply tiers_lookup|].
  split; [|split; [|split; [|split; [|split; [|split]]]]].
  - intros gs defaults rules own global_size type_size own_size _ _ _ _ _ Hown Hsize.
    rewrite tiers_lookup. unfold field_tier. rewrite Hown. simpl. by rewrite Hsize.
  - intros gs defaults rules k v Hgs Hdefaults Hrules Hk Hpreset Hfield.
    rewrite tiers_lookup. simpl. rewrite Hfield, Hpreset.
    unfold type_tier. rewrite Hgs. destruct gs as [own_rules type_defaults].
    simpl in Hdefaults. subst type_defaults. rewrite Hrules. simpl. by rewrite Hk.
  - intros name presets rules k v Hname Hne Hpresets Hrules Hk Hfield.
    rewrite tiers_lookup. simpl. rewrite Hfield.
    unfold preset_tier. rewrite Hname, Hpresets.
    destruct (decide (name = "")); [done|]. rewrite Hrules. simpl. by rewrite Hk.
  - intros Hnone. unfold type_tier, global_tier. rewrite Hnone.
    by rewrite !(right_id_L ∅ (∪)).
  - intros ->. by rewrite (left_id_L ∅ (∪)).
  - intros ->. by rewrite (left_id_L ∅ (∪)).
  - intros Hnone. unfold field_tier. rewrite Hnone. simpl.
    by rewrite (left_id_L ∅ (∪)).
Qed.

(* ====================================================================== *)
(** * Decimal digits *)
(* ====================================================================== *)

Lemma str_forallb_app (p : ascii → bool) (s t : string) :
  str_forallb p (s +:+ t) = str_forallb p s && str_forallb p t.
Proof. induction s as [|c s IH]; simpl; [done|]. by rewrite IH, andb_assoc. Qed.

Lemma pretty_N_char_digit (x : N) : is_digit (pretty_N_char x) = true.
Proof. unfold pretty_N_char. repeat case_match; reflexivity. Qed.

(** The digits of a number are put in front of what is printed already. *)
Lemma pretty_N_go_digits (x : N) (s : string) :
  ∃ d, pretty_N_go x s = d +:+ s ∧ str_forallb is_digit d = true
       ∧ ((0 < x)%N → d ≠ "").
Proof.
  revert s. induction (N.lt_wf_0 x) as [x _ IH]. intros s.
  destruct (decide (x = 0%N)) as [->|Hx].
  - exists "". rewrite pretty_N_go_0. split; [done|]. split; [done|lia].
  - rewrite pretty_N_go_step by lia.
    destruct (IH (x `div` 10)%N) with (s := String (pretty_N_char (x `mod` 10)) s)
      as (d & Hd & Hdig & _).
    { apply N.div_lt; lia. }
    exists (d +:+ String (pretty_N_char (x `mod` 10)) "").
    split; [|split].
    + rewrite Hd. clear. induction d as [|c d IHd]; simpl; [done|]. by rewrite IHd.
    + rewrite str_forallb_app, Hdig. simpl. by rewrite pretty_N_char_digit.
    + intros _. by destruct d.
Qed.

Lemma str_app_empty_r (s : string) : s +:+ "" = s.
Proof. induction s as [|c s IH]; simpl; [done|]. by rewrite IH. Qed.

Lemma pretty_N_all_digits (n : N) :
  str_forallb is_digit (pretty n) = true ∧ pretty n ≠ "".
Proof.
  unfold pretty, pretty_N. case_decide as Hn; [done|].
  destruct (pretty_N_go_digits n "") as (d & -> & Hdig & Hne).
  rewrite str_app_empty_r. split; [done|]. apply Hne. lia.
Qed.

Lemma index_key_not_length (i : N) : str_eqb (index_key i) "length" = false.
Proof.
  unfold str_eqb. apply bool_decide_eq_false. intros Heq.
  destruct (pretty_N_all_digits i) as [Hdig _].
  unfold index_key in Heq. rewrite Heq in Hdig. discriminate.
Qed.

(* ====================================================================== *)
(** * Properties of [resolveJSONPath] *)
(* ====================================================================== *)

Lemma bind_Ret {A B} (a : A) (f : A → result B) : Ret a ≫= f = f a.
Proof. reflexivity. Qed.

Lemma get_prop_returns (v : value) (k : string) :
  is_nullish v = false → ∃ x, get_prop v k = Ret x.
Proof.
  destruct v; simpl; try discriminate; intros _; eauto;
    repeat case_match; eauto.
Qed.

Lemma resolve_segment_returns (segment : string) (current : value) :
  ∃ step, resolve_segment segment current = Ret step.
Proof.
  unfold resolve_segment.
  destruct (is_nullish current) eqn:Hnull; [eauto|].
  destruct (match_array_segment segment) as [[propName indexOrWildcard]|].
  - destruct (negb (str_eqb (typeof current) "object")); [eauto|].
    destruct (get_prop_returns current propName Hnull) as [arr ->]. simpl.
    destruct arr; simpl; eauto.
    destruct (str_eqb indexOrWildcard "*"); [eauto|].
    case_match; simpl; eauto.
  - destruct (negb (str_eqb (typeof current) "object")); [eauto|].
    destruct (get_prop_returns current segment Hnull) as [x ->]. simpl. eauto.
Qed.

Lemma resolve_loop_returns (segments : list string) (current : value) :
  ∃ v, resolve_loop segments current = Ret v.
Proof.
  revert current. induction segments as [|segment rest IH]; intros current; simpl.
  - eauto.
  - destruct (resolve_segment_returns segment current) as [[v|next] ->]; simpl; eauto.
Qed.

Lemma resolve_loop_undefined (segments : list string) :
  resolve_loop segments VUndef = Ret VUndef.
Proof. destruct segments; reflexivity. Qed.

Lemma resolve_loop_reaches (pre rest : list string) (data current : value) :
  reaches pre data current →
  resolve_loop (pre ++ rest) data = resolve_loop rest current.
Proof.
  revert data. induction pre as [|segment pre IH]; intros data; simpl.
  - by intros ->.
  - intros (next & -> & Hrest). simpl. by apply IH.
Qed.

Lemma array_of_list_lookup (elements : list value) (i : N) :
  get_prop (array_of_list elements) (index_key i)
  = Ret (default VUndef (elements !! N.to_nat i)).
Proof.
  unfold array_of_list. simpl. rewrite index_key_not_length. f_equal.
  assert (Hgen : ∀ (l : list value) (off : nat) (j : N),
    (list_to_map (imap (λ i v, (index_key (N.of_nat (off + i)), v)) l)
      : gmap string value) !! index_key j
    = if decide (off ≤ N.to_nat j) then l !! (N.to_nat j - off) else None).
  { clear. induction l as [|x l IH]; intros off j; simpl.
    - rewrite lookup_empty. by case_decide.
    - destruct (decide (index_key (N.of_nat (off + 0)) = index_key j)) as [Heq|Hne].
      + rewrite Heq, lookup_insert_eq.
        apply (inj pretty) in Heq. subst j.
        rewrite Nat2N.id, Nat.add_0_r, Nat.sub_diag.
        by rewrite decide_True by lia.
      + rewrite lookup_insert_ne by done.
        assert (Hj : N.to_nat j ≠ off).
        { intros Hj. apply Hne. f_equal. lia. }
        rewrite (imap_ext _ (λ i v, (index_key (N.of_nat (S off + i)), v)))
          by (intros; simpl; do 3 f_equal; lia).
        rewrite IH. repeat case_decide; try lia; [|done].
        replace (N.to_nat j - off) with (S (N.to_nat j - S off)) by lia. done. }
  specialize (Hgen elements 0 i). simpl in Hgen.
  rewrite Hgen. by rewrite Nat.sub_0_r.
Qed.



Lemma str_span_word_bracket (name rest : string) :
  str_forallb is_word name = true →
  str_span is_word (name +:+ String "[" rest) = (name, String "[" rest).
Proof.
  induction name as [|c name IH]; simpl; [done|].
  intros [Hc Hname]%andb_prop. by rewrite Hc, IH.
Qed.

Lemma match_array_segment_wildcard (propName : string) :
  is_identifier propName = true →
  match_array_segment (propName +:+ "[*]") = Some (propName, "*").
Proof.
  unfold is_identifier, match_array_segment, bracket_match.
  intros [Hne Hword]%andb_prop.
  rewrite (str_span_word_bracket propName "*]" Hword).
  by destruct propName.
Qed.

Lemma split_nonempty (sep : ascii) (s : string) : split sep s ≠ [].
Proof.
  destruct s as [|c s]; simpl; [done|].
  case_bool_decide; [done|]. by destruct (split sep s).
Qed.

Lemma split_app_separator (sep : ascii) (a b : string) :
  split sep (a +:+ String sep b) = split sep a ++ split sep b.
Proof.
  induction a as [|c a IH]; simpl.
  - by rewrite bool_decide_eq_true_2.
  - case_bool_decide; [by rewrite IH|].
    rewrite IH. pose proof (split_nonempty sep a).
    by destruct (split sep a).
Qed.

Lemma split_no_separator (sep : ascii) (s : string) :
  str_forallb (λ c, negb (bool_decide (c = sep))) s = true → split sep s = [s].
Proof.
  induction s as [|c s IH]; simpl; [done|].
  intros [Hc Hs]%andb_prop. destruct (bool_decide (c = sep)); [done|].
  by rewrite (IH Hs).
Qed.

Lemma str_forallb_impl (p q : ascii → bool) (s : string) :
  (∀ c, p c = true → q c = true) → str_forallb p s = true → str_forallb q s = true.
Proof.
  intros Hpq. induction s as [|c s IH]; simpl; [done|].
  intros [Hc Hs]%andb_prop. by rewrite (Hpq c Hc), (IH Hs).
Qed.

Lemma is_word_not_dot (c : ascii) : is_word c = true → negb (bool_decide (c = "."%char)) = true.
Proof. intros Hc. case_bool_decide as Heq; [by rewrite Heq in Hc|done]. Qed.

(** The segments of a path that ends in [.name[*]]. *)
Lemma path_segments_wildcard_end (rooted propName : string) :
  startsWith rooted "$" = true →
  is_identifier propName = true →
  path_segments (rooted +:+ "." +:+ propName +:+ "[*]")
  = path_segments rooted ++ [propName +:+ "[*]"].
Proof.
  intros Hroot [Hne Hword]%andb_prop. unfold path_segments, slice1.
  destruct rooted as [|c rooted]; [done|]. simpl.
  rewrite split_app_separator, List.filter_app. f_equal.
  rewrite split_no_separator.
  - simpl. by destruct propName.
  - rewrite str_forallb_app.
    rewrite (str_forallb_impl _ _ _ is_word_not_dot Hword). done.
Qed.

(** C5.  When the loop stands, at a segment [name[*]], on an object whose
    property [name] is an array, the path resolves to that array as it is,
    whatever segments follow the wildcard: resolution ends there.  In
    particular a path that ends in [.name[*]] resolves to the array. *)
Theorem resolveJSONPath_wildcard (data current : value) (propName : string)
    (len : N) (props : gmap string value) :
  is_identifier propName = true →
  typeof current = "object" →
  get_prop current propName = Ret (VArr len props) →
  (∀ path pre rest,
     startsWith path "$" = true →
     path_segments path = pre ++ (propName +:+ "[*]") :: rest →
     reaches pre data current →
     resolveJSONPath path data = Ret (VArr len props)) ∧
  (∀ rooted,
     startsWith rooted "$" = true →
     reaches (path_segments rooted) data current →
     resolveJSONPath (rooted +:+ "." +:+ propName +:+ "[*]") data
     = Ret (VArr len props)).
Proof.
  intros Hname Htype Hget.
  assert (Hsegments : ∀ path pre rest,
    startsWith path "$" = true →
    path_segments path = pre ++ (propName +:+ "[*]") :: rest →
    reaches pre data current →
    resolveJSONPath path data = Ret (VArr len props)).
  { intros path pre rest Hroot Hpath Hreach. unfold resolveJSONPath.
    rewrite Hroot, Hpath. simpl negb. cbv iota.
    rewrite (resolve_loop_reaches _ _ _ _ Hreach).
    cbn [resolve_loop]. unfold resolve_segment.
    rewrite (match_array_segment_wildcard _ Hname), Htype.
    destruct current; try discriminate; rewrite Hget; reflexivity. }
  split; [exact Hsegments|].
  intros rooted Hroot Hreach.
  apply (Hsegments _ (path_segments rooted) []).
  - destruct rooted as [|c rooted]; [done|]. simpl in *. exact Hroot.
  - by apply path_segments_wildcard_end.
  - exact Hreach.
Qed.

Lemma resolveJSONPath_wildcard_witness :
  resolveJSONPath "$.income.w2Forms[*]" sample_record = Ret w2_forms.
Proof.
  refine (proj2 (resolveJSONPath_wildcard sample_record
                   (object_of_list [("w2Forms", w2_forms)]) "w2Forms" _ _
                   eq_refl eq_refl eq_refl) "$.income" eq_refl _).
  eexists. split; reflexivity.
Defined.

(* ====================================================================== *)
(** * Properties of the condition evaluator *)
(* ====================================================================== *)

Lemma resolveJSONPath_rooted_returns (path : string) (data : value) :
  startsWith path "$" = true → ∃ v, resolveJSONPath path data = Ret v.
Proof.
  intros Hroot. unfold resolveJSONPath. rewrite Hroot. simpl.
  apply resolve_loop_returns.
Qed.

Lemma find_in_pages_rooted (ps : list PageDefinition) (fieldId : string) (field : FieldAnnotation) :
  forallb (λ page, forallb (λ field, startsWith (path (dataBinding field)) "$")
                           (fields page)) ps = true →
  find_in_pages ps fieldId = Some field →
  startsWith (path (dataBinding field)) "$" = true.
Proof.
  induction ps as [|page ps IH]; simpl; [done|].
  intros [Hpage Hps]%andb_prop.
  destruct (List.find _ (fields page)) as [found|] eqn:Hfind.
  - intros [= <-]. apply find_some in Hfind as [Hin _].
    rewrite forallb_forall in Hpage. by apply Hpage.
  - by apply IH.
Qed.

Lemma resolve_source_returns (condition : Condition) (data : value) (blueprint : FormBlueprint) :
  binding_paths_rooted blueprint = true →
  ∃ v, resolve_source condition data blueprint = Ret v.
Proof.
  intros Hrooted. unfold resolve_source.
  destruct (startsWith (cond_source condition) "$") eqn:Hsource.
  - by apply resolveJSONPath_rooted_returns.
  - destruct (findFieldById blueprint (cond_source condition)) as [field|] eqn:Hfind;
      [|eauto].
    apply resolveJSONPath_rooted_returns.
    by apply (find_in_pages_rooted (pages blueprint) (cond_source condition)).
Qed.

Lemma filter_true_none (results : list bool) :
  length (List.filter (λ r, r) results) = 0 ↔ ∀ j, results !! j ≠ Some true.
Proof.
  induction results as [|[] results IH]; simpl.
  - split; [intros _ j; by rewrite lookup_nil|done].
  - split; [done|]. intros Hnone. by destruct (Hnone 0).
  - rewrite IH. split.
    + intros Hnone [|j]; [done|apply Hnone].
    + intros Hnone j. apply (Hnone (S j)).
Qed.

Lemma filter_true_one (results : list bool) :
  length (List.filter (λ r, r) results) = 1 ↔ exactly_one_true results.
Proof.
  unfold exactly_one_true. induction results as [|[] results IH]; simpl.
  - split; [done|]. intros (i & Hi & _). by rewrite lookup_nil in Hi.
  - split.
    + intros [= Hlen]. pose proof (proj1 (filter_true_none _) Hlen) as Hnone.
      exists 0. split; [done|]. intros [|j]; [done|]. simpl. intros Hj. by destruct (Hnone j).
    + intros (i & Hi & Huniq). f_equal. apply (proj2 (filter_true_none _)). intros j Hj.
      pose proof (Huniq 0 eq_refl) as <-. by specialize (Huniq (S j) Hj).
  - rewrite IH. split.
    + intros (i & Hi & Huniq). exists (S i). split; [done|].
      intros [|j]; [done|]. simpl. intros Hj. f_equal. by apply Huniq.
    + intros ([|i] & Hi & Huniq); [done|]. exists i. split; [done|].
      intros j Hj. specialize (Huniq (S j) Hj). by injection Huniq.
Qed.

Section ConditionProperties.
Context {rt : Runtime}.

(** C10.  For a condition whose operator the evaluator has no case for,
    [evaluateCondition] returns false, whatever the source, the record and
    the comparison value; these operators are [NOT_CONTAINS],
    [STARTS_WITH] and [ENDS_WITH].  The blueprint is one of the data
    model: its binding paths begin with the root marker.  (On any
    blueprint the evaluation is that of the source followed by false: it
    throws only where resolving the source does.) *)
Theorem evaluateCondition_unhandled_operator (condition : Condition) (data : value)
    (blueprint : FormBlueprint) :
  (handled_operator (cond_operator condition) = false ↔
     cond_operator condition = NOT_CONTAINS
     ∨ cond_operator condition = STARTS_WITH
     ∨ cond_operator condition = ENDS_WITH) ∧
  (handled_operator (cond_operator condition) = false →
   binding_paths_rooted blueprint = true →
   evaluateCondition condition data blueprint = Ret false) ∧
  (handled_operator (cond_operator condition) = false →
   evaluateCondition condition data blueprint
   = (resolve_source condition data blueprint ≫= λ _, Ret false)).
Proof.
  assert (Hexact : handled_operator (cond_operator condition) = false →
    evaluateCondition condition data blueprint
    = (resolve_source condition data blueprint ≫= λ _, Ret false)).
  { intros Hop. unfold evaluateCondition.
    destruct (resolve_source condition data blueprint) as [sourceValue|]; [|done].
    rewrite !bind_Ret.
    destruct (cond_operator condition); try discriminate; reflexivity. }
  split; [|split; [|exact Hexact]].
  - destruct (cond_operator condition); simpl;
      (split; [intros ?; first [discriminate | tauto]
              | intros [?|[?|?]]; first [discriminate | reflexivity]]).
  - intros Hop Hrooted. rewrite (Hexact Hop).
    by destruct (resolve_source_returns condition data blueprint Hrooted) as [? ->].
Qed.

Lemma evaluate_conditions_cons (condition : Condition) (rest : list Condition)
    (data : value) (blueprint : FormBlueprint) :
  evaluate_conditions (condition :: rest) data blueprint =
    r ← evaluateCondition condition data blueprint;
    rs ← evaluate_conditions rest data blueprint;
    Ret (r :: rs).
Proof. reflexivity. Qed.

Lemma evaluate_conditions_returns (cs : list Condition) (data : value) (blueprint : FormBlueprint) :
  Forall (λ c, returns (evaluateCondition c data blueprint) = true) cs →
  ∃ results, evaluate_conditions cs data blueprint = Ret results.
Proof.
  induction 1 as [|c cs Hc _ [results IH]].
  - by exists [].
  - rewrite evaluate_conditions_cons, IH.
    destruct (evaluateCondition c data blueprint) as [r|]; [|done].
    by exists (r :: results).
Qed.

(** C3.  Under the operator [NOT], the logic returns the negation of the
    result of its first condition.  The other conditions are evaluated
    too, but their results have no part in it: once they return, whatever
    they return, the result is the same. *)
Theorem evaluateConditionalLogic_NOT_first_only (logic : ConditionalLogic) (data : value)
    (blueprint : FormBlueprint) (first : Condition) (others : list Condition) (r : bool) :
  logic_operator logic = NOT →
  conditions logic = first :: others →
  evaluateCondition first data blueprint = Ret r →
  Forall (λ c, returns (evaluateCondition c data blueprint) = true) others →
  evaluateConditionalLogic logic data blueprint = Ret (negb r).
Proof.
  intros Hop Hconditions Hfirst Hothers. unfold evaluateConditionalLogic.
  rewrite Hop, Hconditions, evaluate_conditions_cons, Hfirst.
  destruct (evaluate_conditions_returns others data blueprint Hothers) as [rs ->].
  by destruct r.
Qed.

(** C8.  Under the operator [XOR], the logic returns true if and only if
    exactly one of its conditions evaluates to true: the results true,
    false, false give true, and the results true, true, false give
    false. *)
Theorem evaluateConditionalLogic_XOR_exactly_one (logic : ConditionalLogic) (data : value)
    (blueprint : FormBlueprint) (results : list bool) :
  logic_operator logic = XOR →
  evaluate_conditions (conditions logic) data blueprint = Ret results →
  (∃ b, evaluateConditionalLogic logic data blueprint = Ret b
        ∧ (b = true ↔ exactly_one_true results)) ∧
  (results = [true; false; false] →
     evaluateConditionalLogic logic data blueprint = Ret true) ∧
  (results = [true; true; false] →
     evaluateConditionalLogic logic data blueprint = Ret false).
Proof.
  intros Hop Hresults. unfold evaluateConditionalLogic.
  rewrite Hresults, Hop, bind_Ret. split; [|split].
  - eexists. split; [reflexivity|]. simpl.
    rewrite <- filter_true_one. apply Nat.eqb_eq.
  - by intros ->.
  - by intros ->.
Qed.

End ConditionProperties.

(* ====================================================================== *)
(** * Properties of [validateForm] *)
(* ====================================================================== *)

Section ValidationProperties.
Context {rt : Runtime}.

Lemma validate_rules_app (field : FieldAnnotation) (v : value)
    (rules1 rules2 : list ValidationRule) (found : list ValidationError) :
  validate_rules field v (rules1 ++ rules2) found =
    found ← validate_rules field v rules1 found;
    validate_rules field v rules2 found.
Proof.
  revert found. induction rules1 as [|rule rules1 IH]; intros found; simpl; [done|].
  destruct (validateRule field v rule) as [[error|]|]; simpl; [apply IH|apply IH|done].
Qed.

(** On an absent value only the rule [required] fails. *)
Lemma validateRule_absent_other (field : FieldAnnotation) (v : value) (rule : ValidationRule) :
  is_nullish v = true → rule_type rule ≠ REQUIRED → validateRule field v rule = Ret None.
Proof.
  intros Hv Hrule. unfold validateRule.
  destruct v; try discriminate; by destruct (rule_type rule).
Qed.

Lemma validate_rules_absent_others (field : FieldAnnotation) (v : value)
    (rules : list ValidationRule) (found : list ValidationError) :
  is_nullish v = true →
  Forall (λ rule, rule_type rule ≠ REQUIRED) rules →
  validate_rules field v rules found = Ret found.
Proof.
  intros Hv. induction 1 as [|rule rules Hrule _ IH]; simpl; [done|].
  by rewrite (validateRule_absent_other field v rule Hv Hrule).
Qed.

Lemma validate_fields_app (blueprint : FormBlueprint) (data : value)
    (fs1 fs2 : list FieldAnnotation) (acc : buckets) :
  validate_fields blueprint data (fs1 ++ fs2) acc =
    acc ← validate_fields blueprint data fs1 acc;
    validate_fields blueprint data fs2 acc.
Proof.
  revert acc. induction fs1 as [|field fs1 IH]; intros acc; simpl; [done|].
  destruct (validate_form_field blueprint data field acc); simpl; [apply IH|done].
Qed.

(** The two loops of [validateForm] visit the fields of all pages in
    order. *)
Lemma validate_pages_fields (blueprint : FormBlueprint) (data : value)
    (ps : list PageDefinition) (acc : buckets) :
  validate_pages blueprint data ps acc
  = validate_fields blueprint data (flat_map fields ps) acc.
Proof.
  revert acc. induction ps as [|page ps IH]; intros acc; simpl; [done|].
  rewrite validate_fields_app.
  destruct (validate_fields blueprint data (fields page) acc); simpl; [apply IH|done].
Qed.

(** C4.  A blueprint holds a single field; the field has no conditional
    logic, its binding path resolves to nothing in the record ([undefined],
    or [null]), and among its rules one is [required], with no severity
    given (the other rules, if any, are of other kinds).  Then
    [validateForm] returns a result that is not valid, with exactly one
    error and no warning; the error is of the rule [required], of severity
    [error], on that field. *)
Theorem validateForm_required_absent (blueprint : FormBlueprint) (data v : value)
    (field : FieldAnnotation) (rule : ValidationRule) (before after : list ValidationRule) :
  flat_map fields (pages blueprint) = [field] →
  conditionalLogic field = None →
  resolveJSONPath (path (dataBinding field)) data = Ret v →
  is_nullish v = true →
  validations field = Some (before ++ rule :: after) →
  rule_type rule = REQUIRED →
  rule_severity rule = None →
  Forall (λ other, rule_type other ≠ REQUIRED) (before ++ after) →
  ∃ error,
    validateForm blueprint data
    = Ret {| isValid := false; errors := [error]; warnings := [] |}
    ∧ err_rule error = REQUIRED
    ∧ err_severity error = ERROR
    ∧ err_fieldId error = field_id field
    ∧ actualValue error = v.
Proof.
  intros Hsingle Hlogic Hvalue Hv Hrules Htype Hseverity Hothers.
  apply Forall_app in Hothers as [Hbefore Hafter].
  unfold validateForm. rewrite validate_pages_fields, Hsingle.
  cbn [validate_fields]. unfold validate_form_field.
  rewrite Hlogic, bind_Ret. cbv iota. rewrite Hvalue, bind_Ret.
  unfold validateField. rewrite Hrules, validate_rules_app.
  rewrite (validate_rules_absent_others field v before [] Hv Hbefore), bind_Ret.
  cbn [validate_rules]. unfold validateRule at 1. rewrite Htype, Hseverity, Hv.
  cbn [orb default]. rewrite bind_Ret.
  rewrite (validate_rules_absent_others field v after _ Hv Hafter).
  eexists. split; [reflexivity|]. done.
Qed.

End ValidationProperties.

(* ====================================================================== *)
(** * Properties of [setJSONPath] *)
(* ====================================================================== *)

Lemma str_span_fst_forallb (p : ascii → bool) (s : string) :
  str_forallb p (str_span p s).1 = true.
Proof.
  induction s as [|c s IH]; simpl; [done|].
  destruct (p c) eqn:Hc; [|done].
  destruct (str_span p s) as [a b]. simpl in *. by rewrite Hc, IH.
Qed.

(** A segment with an index for [setJSONPath] is one for
    [resolveJSONPath] too, and its index is no wildcard. *)
Lemma match_index_segment_array (segment propName indexStr : string) :
  match_index_segment segment = Some (propName, indexStr) →
  match_array_segment segment = Some (propName, indexStr)
  ∧ str_eqb indexStr "*" = false.
Proof.
  unfold match_index_segment, match_array_segment, bracket_match.
  destruct (str_span is_word segment) as [name rest].
  destruct name as [|c name]; [done|].
  destruct rest as [|b inner]; [done|].
  destruct (decide (b = "["%char)) as [->|Hb]; [|by repeat case_match].
  pose proof (str_span_fst_forallb is_digit inner) as Hdigits.
  destruct (str_span is_digit inner) as [digits close]. simpl in Hdigits.
  destruct (negb (str_eqb digits "") && str_eqb close "]") eqn:Hindex; [|done].
  intros [= <- <-]. split; [done|].
  apply bool_decide_eq_false. intros ->. done.
Qed.

(** The equation of [path_fits] at a segment that is not the last. *)
Lemma path_fits_step (segment following : string) (rest : list string)
    (current : value) :
  path_fits (segment :: following :: rest) current =
    match match_index_segment segment with
    | Some (propName, indexStr) =>
        own_slot current propName
        && (parse_digits indexStr <? 2 ^ 53)%N
        && (let found := default VUndef (properties current !! propName) in
            if truthy found then
              match found with
              | VArr _ elements =>
                  let element :=
                    default VUndef (elements !! index_key (parse_digits indexStr)) in
                  path_fits (following :: rest)
                    (if truthy element then element else empty_object)
              | _ => false
              end
            else path_fits (following :: rest) empty_object)
    | None =>
        own_slot current segment
        && bool_decide (match_array_segment segment = None)
        && (let found := default VUndef (properties current !! segment) in
            path_fits (following :: rest)
              (if truthy found then found else empty_object))
    end.
Proof. reflexivity. Qed.

(** Reading and writing under a name of which the container has a
    property of its own. *)
Lemma own_slot_kind (current : value) (k k' : string) (x : value) :
  own_slot current k = true →
  is_nullish current = false
  ∧ typeof current = "object"
  ∧ own_slot (store current k' x) k = true
  ∧ properties (store current k' x) = <[k' := x]> (properties current).
Proof. by destruct current. Qed.

Lemma get_prop_own_slot (current : value) (k : string) :
  own_slot current k = true →
  get_prop current k = Ret (default VUndef (properties current !! k)).
Proof.
  destruct current; try done. intros [_ Hk%negb_true_iff]%andb_prop.
  simpl. by rewrite Hk.
Qed.

Lemma resolve_segment_own_plain (current : value) (segment : string) :
  own_slot current segment = true →
  match_array_segment segment = None →
  resolve_segment segment current
  = Ret (Next (default VUndef (properties current !! segment))).
Proof.
  intros Hslot Hplain. unfold resolve_segment.
  destruct (own_slot_kind current segment segment VUndef Hslot) as (-> & -> & _).
  by rewrite Hplain, (get_prop_own_slot _ _ Hslot).
Qed.

Lemma resolve_segment_own_index (current : value)
    (segment propName indexStr : string) (len : N) (elements : gmap string value) :
  own_slot current propName = true →
  match_array_segment segment = Some (propName, indexStr) →
  str_eqb indexStr "*" = false →
  properties current !! propName = Some (VArr len elements) →
  resolve_segment segment current
  = Ret (Next (default VUndef (elements !! index_key (parse_digits indexStr)))).
Proof.
  intros Hslot Harray Hstar Hprop. unfold resolve_segment.
  destruct (own_slot_kind current propName propName VUndef Hslot) as (-> & -> & _).
  rewrite Harray, (get_prop_own_slot _ _ Hslot), Hprop. simpl.
  by rewrite Hstar, index_key_not_length.
Qed.

Section SetPathProperties.
Context {rt : Runtime}.

(** The equation of [set_loop] at a segment that is not the last. *)
Lemma set_loop_step (segment following : string) (rest : list string)
    (current v : value) :
  set_loop (segment :: following :: rest) current v =
    match match_index_segment segment with
    | Some (propName, indexStr) =>
        let index := parse_digits indexStr in
        found ← get_prop current propName;
        current ← (if negb (truthy found) then put_prop current propName empty_array
                   else Ret current);
        arr ← get_prop current propName;
        found ← get_prop arr (index_key index);
        arr ← (if negb (truthy found) then put_prop arr (index_key index) empty_object
               else Ret arr);
        next ← get_prop arr (index_key index);
        next ← set_loop (following :: rest) next v;
        Ret (store current propName (store arr (index_key index) next))
    | None =>
        found ← get_prop current segment;
        current ← (if negb (truthy found) then put_prop current segment empty_object
                   else Ret current);
        next ← get_prop current segment;
        next ← set_loop (following :: rest) next v;
        Ret (store current segment next)
    end.
Proof. reflexivity. Qed.

Lemma get_prop_object (props : gmap string value) (k : string) :
  get_prop (VObj props) k = Ret (default VUndef (props !! k)).
Proof. reflexivity. Qed.

Lemma get_prop_array (len : N) (elements : gmap string value) (k : string) :
  str_eqb k "length" = false →
  get_prop (VArr len elements) k = Ret (default VUndef (elements !! k)).
Proof. intros Hk. simpl. by rewrite Hk. Qed.

Lemma put_prop_object (props : gmap string value) (k : string) (x : value) :
  put_prop (VObj props) k x = Ret (VObj (<[k := x]> props)).
Proof. reflexivity. Qed.

Lemma put_prop_array (len : N) (elements : gmap string value) (k : string) (x : value) :
  str_eqb k "length" = false →
  ∃ len', put_prop (VArr len elements) k x = Ret (VArr len' (<[k := x]> elements)).
Proof. intros Hk. simpl. rewrite Hk. eauto. Qed.

Lemma resolve_loop_cons (segment : string) (rest : list string) (current : value) :
  resolve_loop (segment :: rest) current =
    step ← resolve_segment segment current;
    match step with
    | Return v => Ret v
    | Next current => resolve_loop rest current
    end.
Proof. reflexivity. Qed.

Lemma resolve_segment_object_plain (props : gmap string value) (segment : string) :
  match_array_segment segment = None →
  resolve_segment segment (VObj props)
  = Ret (Next (default VUndef (props !! segment))).
Proof. intros Hplain. unfold resolve_segment. by rewrite Hplain. Qed.

Lemma resolve_segment_object_index (props : gmap string value)
    (segment propName indexStr : string) (len : N) (elements : gmap string value) :
  match_array_segment segment = Some (propName, indexStr) →
  str_eqb indexStr "*" = false →
  props !! propName = Some (VArr len elements) →
  resolve_segment segment (VObj props)
  = Ret (Next (default VUndef (elements !! index_key (parse_digits indexStr)))).
Proof.
  intros Harray Hstar Hprop. unfold resolve_segment. rewrite Harray. simpl.
  rewrite Hprop. simpl. by rewrite Hstar, index_key_not_length.
Qed.

Lemma put_prop_own_slot (current : value) (k : string) (x : value) :
  own_slot current k = true →
  ∃ current',
    put_prop current k x = Ret current'
    ∧ properties current' = <[k := x]> (properties current)
    ∧ own_slot current' k = true.
Proof.
  destruct current as [| | | | |props|len props]; try done; intros Hslot.
  - by exists (VObj (<[k := x]> props)).
  - pose proof Hslot as [_ Hk%negb_true_iff]%andb_prop.
    destruct (put_prop_array len props k x Hk) as [len' ->]. by eexists.
Qed.

Lemma set_loop_resolve_loop (segments : list string) (current v : value) :
  path_fits segments current = true →
  ∃ current',
    set_loop segments current v = Ret current'
    ∧ resolve_loop segments current' = Ret v.
Proof.
  revert current. induction segments as [|segment rest IH]; intros current Hfits.
  { done. }
  destruct rest as [|following rest].
  { cbn [path_fits] in Hfits. apply andb_prop in Hfits as [Hslot Hplain].
    apply bool_decide_eq_true in Hplain.
    destruct (put_prop_own_slot current segment v Hslot) as (current' & Hput & Hprops & Hslot').
    exists current'. split; [exact Hput|].
    rewrite resolve_loop_cons, (resolve_segment_own_plain _ _ Hslot' Hplain), Hprops.
    by rewrite lookup_insert_eq. }
  rewrite path_fits_step in Hfits. rewrite set_loop_step.
  destruct (match_index_segment segment) as [[propName indexStr]|] eqn:Hmatch;
    cbv zeta in Hfits; cbv zeta.
  - apply andb_prop in Hfits as [[Hslot _]%andb_prop Hfits].
    destruct (match_index_segment_array _ _ _ Hmatch) as [Harray Hstar].
    set (key := index_key (parse_digits indexStr)) in *.
    assert (Hkey : str_eqb key "length" = false) by apply index_key_not_length.
    assert (Hresolve : ∀ container len elements next,
      own_slot container propName = true →
      resolve_loop (following :: rest) next = Ret v →
      resolve_loop (segment :: following :: rest)
        (store container propName (store (VArr len elements) key next)) = Ret v).
    { intros container len elements next Hcontainer Hnext. cbn [store].
      destruct (own_slot_kind container propName propName
                  (VArr len (<[key := next]> elements)) Hcontainer)
        as (_ & _ & Hstored & Hprops).
      rewrite resolve_loop_cons.
      rewrite (resolve_segment_own_index _ _ _ _ len (<[key := next]> elements)
                 Hstored Harray Hstar) by (rewrite Hprops; apply lookup_insert_eq).
      fold key. by rewrite lookup_insert_eq, bind_Ret. }
    rewrite (get_prop_own_slot _ _ Hslot), bind_Ret.
    destruct (truthy (default VUndef (properties current !! propName))) eqn:Hfound;
      cbn [negb].
    + destruct (default VUndef (properties current !! propName))
        as [| | | | | |len elements] eqn:Efound; try discriminate.
      rewrite bind_Ret, (get_prop_own_slot _ _ Hslot), Efound, bind_Ret.
      rewrite (get_prop_array _ _ _ Hkey), bind_Ret.
      destruct (truthy (default VUndef (elements !! key))) eqn:Helement; cbn [negb].
      * rewrite bind_Ret, (get_prop_array _ _ _ Hkey), bind_Ret.
        destruct (IH _ Hfits) as (next & -> & Hnext).
        rewrite bind_Ret. eexists. split; [reflexivity|]. by apply Hresolve.
      * destruct (put_prop_array len elements key empty_object Hkey) as [len' ->].
        rewrite bind_Ret, (get_prop_array _ _ _ Hkey), lookup_insert_eq, bind_Ret.
        destruct (IH _ Hfits) as (next & Hset & Hnext).
        change (default VUndef (Some empty_object)) with empty_object.
        rewrite Hset, bind_Ret.
        eexists. split; [reflexivity|]. by apply Hresolve.
    + destruct (put_prop_own_slot current propName empty_array Hslot)
        as (current' & -> & Hprops & Hslot').
      rewrite bind_Ret, (get_prop_own_slot _ _ Hslot'), Hprops, lookup_insert_eq, bind_Ret.
      change (default VUndef (Some empty_array)) with (VArr 0 ∅).
      rewrite (get_prop_array _ _ _ Hkey), lookup_empty, bind_Ret.
      change (default VUndef None) with VUndef. cbn [truthy negb].
      destruct (put_prop_array 0 ∅ key empty_object Hkey) as [len' ->].
      rewrite bind_Ret, (get_prop_array _ _ _ Hkey), lookup_insert_eq, bind_Ret.
      destruct (IH _ Hfits) as (next & Hset & Hnext).
      change (default VUndef (Some empty_object)) with empty_object.
      rewrite Hset, bind_Ret.
      eexists. split; [reflexivity|]. by apply Hresolve.
  - apply andb_prop in Hfits as [[Hslot Hplain]%andb_prop Hfits].
    apply bool_decide_eq_true in Hplain.
    assert (Hresolve : ∀ container next,
      own_slot container segment = true →
      resolve_loop (following :: rest) next = Ret v →
      resolve_loop (segment :: following :: rest) (store container segment next) = Ret v).
    { intros container next Hcontainer Hnext.
      destruct (own_slot_kind container segment segment next Hcontainer)
        as (_ & _ & Hstored & Hprops).
      rewrite resolve_loop_cons, (resolve_segment_own_plain _ _ Hstored Hplain), Hprops.
      by rewrite lookup_insert_eq, bind_Ret. }
    rewrite (get_prop_own_slot _ _ Hslot), bind_Ret.
    destruct (truthy (default VUndef (properties current !! segment))) eqn:Hfound;
      cbn [negb].
    + rewrite bind_Ret, (get_prop_own_slot _ _ Hslot), bind_Ret.
      destruct (IH _ Hfits) as (next & -> & Hnext).
      rewrite bind_Ret. eexists. split; [reflexivity|]. by apply Hresolve.
    + destruct (put_prop_own_slot current segment empty_object Hslot)
        as (current' & -> & Hprops & Hslot').
      rewrite bind_Ret, (get_prop_own_slot _ _ Hslot'), Hprops, lookup_insert_eq, bind_Ret.
      destruct (IH _ Hfits) as (next & Hset & Hnext).
      change (default VUndef (Some empty_object)) with empty_object.
      rewrite Hset, bind_Ret.
      eexists. split; [reflexivity|]. by apply Hresolve.
Qed.

(** C1, amended.  When the record has room for the path (see
    [path_fits]: the kinds of the containers on the way agree with the
    segments, each name is one under which the container has a property
    of its own, and the indices are exact), [setJSONPath] returns a
    record, and [resolveJSONPath] on the same path finds in it the value
    that was set. *)
Theorem setJSONPath_resolveJSONPath (path : string) (data v : value) :
  startsWith path "$" = true →
  path_fits (path_segments path) data = true →
  ∃ data',
    setJSONPath path data v = Ret data'
    ∧ resolveJSONPath path data' = Ret v.
Proof.
  intros Hroot Hfits. unfold setJSONPath, resolveJSONPath. rewrite Hroot. simpl.
  by apply set_loop_resolve_loop.
Qed.

End SetPathProperties.

(* ====================================================================== *)
(** * Properties of [formatCurrency] *)
(* ====================================================================== *)

Lemma SFabs_unsigned (v : number) : unsigned (SFabs v) = true.
Proof. by destruct v. Qed.

Lemma SFabs_idempotent (v : number) : SFabs (SFabs v) = SFabs v.
Proof. by destruct v. Qed.

Lemma unsigned_not_negative (x : number) : unsigned x = true → num_lt x pos_zero = false.
Proof. destruct x as [| [] | | [] ? ?]; done. Qed.

Lemma binary_round_unsigned (m : positive) (e : Z) :
  unsigned (binary_round 53 1024 false m e) = true.
Proof.
  unfold binary_round, binary_round_aux.
  destruct (shl_align _ _ _) as [mz ez].
  destruct (shr_fexp _ _ _ _ _) as [mrs' e'].
  destruct (shr_fexp _ _ _ _ _) as [mrs'' e''].
  destruct (shr_m mrs''); [done| |done]. by case_match.
Qed.

Lemma math_round_unsigned (x : number) : unsigned x = true → unsigned (math_round x) = true.
Proof.
  destruct x as [s|s| |s m e]; simpl; try done.
  intros Hs. apply negb_true_iff in Hs. subst s.
  set (r := if (0 <=? e)%Z then (Z.pos m * 2 ^ e)%Z
            else ((2 * Z.pos m + 2 ^ (- e)) / 2 ^ (1 - e))%Z).
  assert (Hr : (0 ≤ r)%Z).
  { subst r. destruct (Z.leb_spec 0 e).
    - apply Z.mul_nonneg_nonneg; [lia|]. by apply Z.pow_nonneg.
    - apply Z.div_pos; [|apply Z.pow_pos_nonneg; lia].
      assert (0 ≤ 2 ^ (- e))%Z by (by apply Z.pow_nonneg). lia. }
  destruct (r =? 0)%Z; [done|].
  unfold number_of_Z, binary_normalize.
  destruct r as [|p|p]; [done| |lia]. apply binary_round_unsigned.
Qed.

Lemma str_head_app (s t : string) :
  s ≠ "" → str_head (s +:+ t) = str_head s.
Proof. by destruct s. Qed.

Lemma str_head_take (n : nat) (s : string) :
  0 < n → str_head (str_take n s) = str_head s.
Proof. destruct n, s; simpl; try done. lia. Qed.

Lemma str_take_nonempty (n : nat) (s : string) :
  0 < n → s ≠ "" → str_take n s ≠ "".
Proof. destruct n, s; simpl; try done. lia. Qed.

Lemma digits_unsigned_head (s : string) :
  str_forallb is_digit s = true → s ≠ "" → unsigned_head s = true.
Proof.
  destruct s as [|c s]; [done|]. simpl. unfold unsigned_head. simpl.
  intros [-> _]%andb_prop _. done.
Qed.

Lemma pretty_N_unsigned_head (n : N) : unsigned_head (pretty n) = true.
Proof.
  destruct (pretty_N_all_digits n). by apply digits_unsigned_head.
Qed.

Lemma str_repeat_length (c : ascii) (n : nat) : String.length (str_repeat c n) = n.
Proof. induction n; simpl; congruence. Qed.

Lemma str_length_app (s t : string) :
  String.length (s +:+ t) = String.length s + String.length t.
Proof. induction s; simpl; congruence. Qed.

Lemma str_length_zero (s : string) : String.length s = 0 → s = "".
Proof. by destruct s. Qed.

Lemma fixed_digits_unsigned_head (n : N) (f : nat) :
  unsigned_head (fixed_digits n f) = true.
Proof.
  unfold fixed_digits. destruct (pretty_N_all_digits n) as [Hdigits Hne].
  destruct f as [|f]; [by apply digits_unsigned_head|].
  set (m := if (String.length (pretty n) <=? S f)%nat
            then str_repeat "0" (S f + 1 - String.length (pretty n)) +:+ pretty n
            else pretty n).
  assert (Hm : str_forallb is_digit m = true ∧ S f < String.length m).
  { subst m. destruct (Nat.leb_spec (String.length (pretty n)) (S f)).
    - split.
      + rewrite str_forallb_app, Hdigits, andb_true_r.
        generalize (S f + 1 - String.length (pretty n)). intros k.
        induction k; simpl; [done|]. by rewrite IHk.
      + rewrite str_length_app, str_repeat_length. lia.
    - done. }
  destruct Hm as [Hmd Hlen].
  assert (Hmne : m ≠ "") by (intros E; rewrite E in Hlen; simpl in Hlen; lia).
  unfold unsigned_head.
  rewrite str_head_app by (apply str_take_nonempty; [lia|done]).
  rewrite str_head_take by lia.
  by apply digits_unsigned_head.
Qed.

Lemma format_digits_unsigned_head (digits : string) (n : Z) :
  str_forallb is_digit digits = true → digits ≠ "" →
  unsigned_head (format_digits digits n) = true.
Proof.
  intros Hd Hne. unfold format_digits.
  repeat case_match; subst; try done.
  - unfold unsigned_head. rewrite str_head_app by done. by apply digits_unsigned_head.
  - unfold unsigned_head.
    rewrite str_head_app by (apply str_take_nonempty; [lia|done]).
    rewrite str_head_take by lia. by apply digits_unsigned_head.
  - exact (digits_unsigned_head _ Hd Hne).
  - exact (digits_unsigned_head _ Hd Hne).
  - exact (digits_unsigned_head _ Hd Hne).
  - exact (digits_unsigned_head _ Hd Hne).
Qed.

Lemma is_digit_is_word (c : ascii) : is_digit c = true → is_word c = true.
Proof. unfold is_word. by intros ->. Qed.

(** No separator goes in front of the first character. *)
Lemma insert_separators_first (c : ascii) (r : string) :
  insert_separators None (String c r) = String c (insert_separators (Some c) r).
Proof.
  cbn [insert_separators str_head].
  assert (Hhere : not_word_boundary None (Some c) && groups_of_three_ahead (String c r)
                  = false).
  { unfold not_word_boundary, groups_of_three_ahead. cbn [from_option str_span].
    destruct (is_digit c) eqn:Hc.
    - by rewrite (is_digit_is_word c Hc).
    - by rewrite andb_false_r. }
  by rewrite Hhere.
Qed.

Lemma addThousandsSeparators_head (numStr : string) :
  str_head (addThousandsSeparators numStr) = str_head numStr.
Proof.
  unfold addThousandsSeparators. destruct numStr as [|c r]; [reflexivity|].
  cbn [split]. case_bool_decide as Hc.
  - subst c. pose proof (split_nonempty "." r).
    by destruct (split "." r).
  - pose proof (split_nonempty "." r).
    destruct (split "." r) as [|piece pieces]; [done|].
    rewrite insert_separators_first. by destruct pieces.
Qed.

Lemma unsigned_head_same (s t : string) :
  str_head s = str_head t → unsigned_head s = unsigned_head t.
Proof. unfold unsigned_head. by intros ->. Qed.

Lemma str_last_snoc (s : string) (c : ascii) : str_last (s +:+ String c "") = Some c.
Proof.
  induction s as [|a s IH]; [reflexivity|].
  simpl. rewrite IH. by destruct s.
Qed.

Lemma currency_head_no_sign (body : string) :
  currency_head body →
  str_head body ≠ Some "-"%char ∧ str_head body ≠ Some "("%char.
Proof.
  unfold currency_head, unsigned_head. intros [->|Hhead]; [done|].
  destruct (str_head body) as [c|]; [|done].
  split; intros [= ->]; done.
Qed.

Section CurrencyProperties.
Context {rt : Runtime}.

Lemma positive_to_string_unsigned_head (m : positive) (e : Z) :
  unsigned_head (positive_to_string m e) = true.
Proof.
  unfold positive_to_string. destruct (safe_integer m e).
  - apply pretty_N_unsigned_head.
  - destruct (shortest_digits m e) as [s n].
    destruct (pretty_N_all_digits s). by apply format_digits_unsigned_head.
Qed.

Lemma number_to_string_unsigned_head (x : number) :
  unsigned x = true → unsigned_head (number_to_string x) = true.
Proof.
  destruct x as [s|s| |s m e]; simpl; try done.
  - by intros ->%negb_true_iff.
  - intros ->%negb_true_iff. apply positive_to_string_unsigned_head.
Qed.

Lemma toFixed_unsigned_head (x : number) (fractionDigits : Z) (s : string) :
  unsigned x = true → toFixed x fractionDigits = Ret s → unsigned_head s = true.
Proof.
  intros Hx. unfold toFixed.
  destruct ((fractionDigits <? 0)%Z || (100 <? fractionDigits)%Z); [done|].
  destruct x as [sg|sg| |sg m e]; simpl in Hx.
  - intros [= <-]. apply fixed_digits_unsigned_head.
  - apply negb_true_iff in Hx. subst sg. by intros [= <-].
  - by intros [= <-].
  - apply negb_true_iff in Hx. subst sg.
    destruct (at_least_1e21 m e); intros [= <-].
    + apply positive_to_string_unsigned_head.
    + apply fixed_digits_unsigned_head.
Qed.

Lemma toFixed_returns (x : number) (fractionDigits : Z) :
  (0 ≤ fractionDigits ≤ 100)%Z → ∃ s, toFixed x fractionDigits = Ret s.
Proof.
  intros Hrange. unfold toFixed.
  destruct (Z.ltb_spec fractionDigits 0); [lia|].
  destruct (Z.ltb_spec 100 fractionDigits); [lia|]. simpl.
  destruct x; repeat case_match; eauto.
Qed.

(** The negative sign only adds the parentheses: the rest is the result
    for the absolute value. *)
Lemma formatCurrency_abs (v : number) (format : option CurrencyFormat)
    (decimalPlaces : option Z) (thousandsSeparator : option bool) :
  formatCurrency v format decimalPlaces thousandsSeparator =
    body ← formatCurrency (SFabs v) format decimalPlaces thousandsSeparator;
    Ret (if num_lt v pos_zero then "(" +:+ body +:+ ")" else body).
Proof.
  unfold formatCurrency.
  rewrite SFabs_idempotent, (unsigned_not_negative _ (SFabs_unsigned v)).
  destruct (default USD_NO_SYMBOL format);
    try destruct (toFixed (SFabs v) _); reflexivity.
Qed.

Lemma formatCurrency_abs_head (v : number) (format : option CurrencyFormat)
    (decimalPlaces : option Z) (thousandsSeparator : option bool) (body : string) :
  formatCurrency (SFabs v) format decimalPlaces thousandsSeparator = Ret body →
  currency_head body.
Proof.
  unfold formatCurrency.
  rewrite SFabs_idempotent, (unsigned_not_negative _ (SFabs_unsigned v)).
  pose proof (SFabs_unsigned v) as Habs.
  assert (Hsep : ∀ s, unsigned_head s = true →
    unsigned_head (if default true thousandsSeparator
                   then addThousandsSeparators s else s) = true).
  { intros s Hs. destruct (default true thousandsSeparator); [|done].
    by rewrite (unsigned_head_same _ s (addThousandsSeparators_head s)). }
  unfold currency_head.
  destruct (default USD_NO_SYMBOL format).
  - destruct (toFixed (SFabs v) _) as [s|]; [|done]. intros [= <-]. by left.
  - destruct (toFixed (SFabs v) _) as [s|] eqn:Hs; [|done]. intros [= <-]. right.
    apply Hsep. exact (toFixed_unsigned_head _ _ _ Habs Hs).
  - destruct (toFixed (SFabs v) _) as [s|] eqn:Hs; [|done]. intros [= <-]. right.
    apply Hsep. exact (toFixed_unsigned_head _ _ _ Habs Hs).
  - intros [= <-]. right. apply Hsep.
    apply number_to_string_unsigned_head. by apply math_round_unsigned.
Qed.

(** C6.  [formatCurrency] returns a string whenever the decimal places
    are ones [toFixed] accepts (0 to 100; the formats with cents and in
    whole dollars do not use them).  What it returns is what it returns
    for the absolute value, which never starts with a minus sign, put in
    parentheses when the value is negative and left as it is otherwise;
    so the output is in parentheses if and only if the value is
    negative. *)
Theorem formatCurrency_parentheses (v : number) (format : option CurrencyFormat)
    (decimalPlaces : option Z) (thousandsSeparator : option bool) :
  (places_in_range format decimalPlaces = true →
     returns (formatCurrency v format decimalPlaces thousandsSeparator) = true) ∧
  (∀ out,
     formatCurrency v format decimalPlaces thousandsSeparator = Ret out →
     ∃ body,
       formatCurrency (SFabs v) format decimalPlaces thousandsSeparator = Ret body
       ∧ out = (if num_lt v pos_zero then "(" +:+ body +:+ ")" else body)
       ∧ str_head body ≠ Some "-"%char
       ∧ (parenthesized out = true ↔ num_lt v pos_zero = true)).
Proof.
  split.
  - unfold places_in_range, formatCurrency. intros Hplaces.
    destruct (default USD_NO_SYMBOL format).
    + apply andb_prop in Hplaces as [?%Z.leb_le ?%Z.leb_le].
      by destruct (toFixed_returns (SFabs v) (default 0%Z decimalPlaces)) as [s ->].
    + apply andb_prop in Hplaces as [?%Z.leb_le ?%Z.leb_le].
      by destruct (toFixed_returns (SFabs v) (default 0%Z decimalPlaces)) as [s ->].
    + by destruct (toFixed_returns (SFabs v) 2) as [s ->].
    + done.
  - intros out. rewrite formatCurrency_abs.
    destruct (formatCurrency (SFabs v) format decimalPlaces thousandsSeparator)
      as [body|] eqn:Hbody; [|done].
    rewrite bind_Ret. intros [= <-]. exists body.
    destruct (currency_head_no_sign body (formatCurrency_abs_head _ _ _ _ _ Hbody))
      as [Hminus Hparen].
    split; [done|]. split; [done|]. split; [done|].
    destruct (num_lt v pos_zero).
    + split; [done|]. intros _. unfold parenthesized.
      apply andb_true_intro. split; apply bool_decide_eq_true; [done|].
      exact (str_last_snoc (String "(" body) ")").
    + split; [|done]. unfold parenthesized.
      intros [Hhead _]%andb_prop. by apply bool_decide_eq_true in Hhead.
Qed.

End CurrencyProperties.

(* ====================================================================== *)
(** * Closed instances *)
(* ====================================================================== *)

Lemma getMergedFormatting_overlay_witness :
  getMergedFormatting sample_blueprint wages_field !! "fontSize"
  = Some (VNum (number_of_Z 12))
  ∧ getMergedFormatting styled_blueprint styled_field !! "fontFamily"
    = Some (VStr "Helvetica")
  ∧ getMergedFormatting styled_blueprint styled_field !! "fontSize"
    = Some (VNum (number_of_Z 11))
  ∧ getMergedFormatting styled_blueprint styled_field !! "color" = Some (VStr "red")
  ∧ getMergedFormatting styled_blueprint styled_field !! "alignment"
    = Some (VStr "decimal").
Proof.
  split; [|split; [|split; [|split]]].
  - exact (proj1 (proj2 (getMergedFormatting_overlay sample_blueprint wages_field))
             sample_styles {[ "currency" := {[ "fontSize" := VNum (number_of_Z 11) ]} ]}
             {[ "fontSize" := VNum (number_of_Z 11) ]}
             {[ "fontSize" := VNum (number_of_Z 12) ]}
             (VNum (number_of_Z 10)) (VNum (number_of_Z 11)) (VNum (number_of_Z 12))
             eq_refl eq_refl eq_refl eq_refl eq_refl eq_refl eq_refl).
  - exact (proj1 (getMergedFormatting_overlay styled_blueprint styled_field)
             "fontFamily").
  - exact (proj1 (proj2 (proj2 (getMergedFormatting_overlay styled_blueprint
                                  styled_field)))
             _ _ _ "fontSize" (VNum (number_of_Z 11))
             eq_refl eq_refl eq_refl eq_refl eq_refl eq_refl).
  - refine (proj1 (proj2 (proj2 (proj2 (getMergedFormatting_overlay styled_blueprint
                                          styled_field))))
              "emphasis" _ _ "color" (VStr "red")
              eq_refl _ eq_refl eq_refl eq_refl eq_refl).
    discriminate.
  - exact (proj1 (getMergedFormatting_overlay styled_blueprint styled_field)
             "alignment").
Defined.

Lemma evaluateCondition_unhandled_operator_witness :
  evaluateCondition (rt := sample_runtime)
    (condition_of "ssn" STARTS_WITH (Scalar (SString "123")))
    sample_record sample_blueprint
  = Ret false.
Proof.
  exact (proj1 (proj2 (evaluateCondition_unhandled_operator (rt := sample_runtime)
                         (condition_of "ssn" STARTS_WITH (Scalar (SString "123")))
                         sample_record sample_blueprint))
           eq_refl eq_refl).
Defined.

Lemma evaluateConditionalLogic_NOT_first_only_witness :
  evaluateConditionalLogic (rt := sample_runtime)
    {| conditions := [has_spouse; has_first_name; is_jane];
       logic_operator := NOT; action := SHOW |}
    sample_record sample_blueprint
  = Ret true.
Proof.
  apply (evaluateConditionalLogic_NOT_first_only (rt := sample_runtime) _ _ _
           has_spouse [has_first_name; is_jane] false);
    [reflexivity | reflexivity | reflexivity | repeat constructor].
Defined.

Lemma evaluateConditionalLogic_XOR_exactly_one_witness :
  evaluateConditionalLogic (rt := sample_runtime)
    {| conditions := [has_first_name; has_spouse; is_jane];
       logic_operator := XOR; action := SHOW |}
    sample_record sample_blueprint
  = Ret true.
Proof.
  exact (proj1 (proj2 (evaluateConditionalLogic_XOR_exactly_one (rt := sample_runtime)
                         {| conditions := [has_first_name; has_spouse; is_jane];
                            logic_operator := XOR; action := SHOW |}
                         sample_record sample_blueprint [true; false; false]
                         eq_refl eq_refl))
           eq_refl).
Defined.

Lemma validateForm_required_absent_witness :
  ∃ error,
    validateForm (rt := sample_runtime) spouse_blueprint sample_record
    = Ret {| isValid := false; errors := [error]; warnings := [] |}
    ∧ err_rule error = REQUIRED
    ∧ err_severity error = ERROR
    ∧ err_fieldId error = "spouseName"
    ∧ actualValue error = VUndef.
Proof.
  refine (validateForm_required_absent (rt := sample_runtime) spouse_blueprint
            sample_record VUndef spouse_field
            (rule_of REQUIRED "Spouse name is required")
            [] [_] eq_refl eq_refl eq_refl eq_refl eq_refl eq_refl eq_refl _).
  repeat constructor. discriminate.
Defined.

Lemma setJSONPath_resolveJSONPath_witness :
  (∃ data',
     setJSONPath (rt := sample_runtime) "$.income.w2Forms[1].employer" sample_record
       (VStr "Acme")
     = Ret data'
     ∧ resolveJSONPath "$.income.w2Forms[1].employer" data' = Ret (VStr "Acme"))
  ∧ (∃ data',
       setJSONPath (rt := sample_runtime) "$.income.w2Forms.note" sample_record
         (VStr "amended")
       = Ret data'
       ∧ resolveJSONPath "$.income.w2Forms.note" data' = Ret (VStr "amended")).
Proof.
  split.
  - exact (setJSONPath_resolveJSONPath (rt := sample_runtime)
             "$.income.w2Forms[1].employer" sample_record (VStr "Acme") eq_refl eq_refl).
  - exact (setJSONPath_resolveJSONPath (rt := sample_runtime)
             "$.income.w2Forms.note" sample_record (VStr "amended") eq_refl eq_refl).
Defined.

(** C1 as stated fails.  The path [$.forms[0].wages] is a valid path
    without wildcard, and the record holds an object, not an array, under
    [forms].  [setJSONPath] takes the object for the array and gives it a
    property named [0]; [resolveJSONPath] asks for an array there, finds
    none, and resolves the path to [undefined], not to the value set. *)
Lemma setJSONPath_roundtrip_counterexample :
  valid_path "$.forms[0].wages" = true
  ∧ setJSONPath (rt := sample_runtime) "$.forms[0].wages"
      (object_of_list [("forms", empty_object)]) (VStr "85000")
    = Ret (object_of_list
             [("forms", object_of_list
                          [("0", object_of_list [("wages", VStr "85000")])])])
  ∧ resolveJSONPath "$.forms[0].wages"
      (object_of_list
         [("forms", object_of_list [("0", object_of_list [("wages", VStr "85000")])])])
    = Ret VUndef.
Proof. repeat split; vm_compute; reflexivity. Qed.

(** The last segment of a path is taken as a property name as it is
    written, brackets and all: a path that ends in an index sets a property
    of that name, where [resolveJSONPath] looks for an array. *)
Lemma setJSONPath_last_segment_index :
  setJSONPath (rt := sample_runtime) "$.dependents[0]" empty_object (VStr "Ann")
  = Ret (object_of_list [("dependents[0]", VStr "Ann")])
  ∧ resolveJSONPath "$.dependents[0]" (object_of_list [("dependents[0]", VStr "Ann")])
    = Ret VUndef.
Proof. split; vm_compute; reflexivity. Qed.

Lemma formatCurrency_parentheses_witness :
  parenthesized "($1,234,567.00)" = true.
Proof.
  destruct (proj2 (formatCurrency_parentheses (rt := sample_runtime)
                     (number_of_Z (-1234567)) (Some USD) (Some 2%Z) None)
              "($1,234,567.00)" eq_refl)
    as (body & _ & _ & _ & Hwrapped).
  apply Hwrapped. reflexivity.
Defined.

(* ====================================================================== *)
(** * Further properties: field lookup and merged formatting *)
(* ====================================================================== *)

Lemma find_app_first {A} (p : A → bool) (l1 l2 : list A) :
  List.find p (l1 ++ l2) =
    match List.find p l1 with
    | Some x => Some x
    | None => List.find p l2
    end.
Proof.
  induction l1 as [|x l1 IH]; simpl; [done|]. by destruct (p x).
Qed.

Lemma find_in_pages_flat (ps : list PageDefinition) (fieldId : string) :
  find_in_pages ps fieldId
  = List.find (λ f, str_eqb (field_id f) fieldId) (flat_map fields ps).
Proof.
  induction ps as [|page ps IH]; simpl; [done|].
  rewrite find_app_first, IH. by destruct (List.find _ (fields page)).
Qed.

(** X1.  [findFieldById] returns the first field, in the order of the
    pages and of the fields on a page, whose identifier is the one asked
    for.  So the field it returns has that identifier and is a field of the
    blueprint, and it returns nothing exactly when no field has it. *)
Theorem findFieldById_first_match (blueprint : FormBlueprint) (fieldId : string) :
  findFieldById blueprint fieldId
  = List.find (λ f, str_eqb (field_id f) fieldId) (all_fields blueprint)
  ∧ (∀ field, findFieldById blueprint fieldId = Some field →
       field_id field = fieldId ∧ In field (all_fields blueprint))
  ∧ (findFieldById blueprint fieldId = None ↔
       ∀ field, In field (all_fields blueprint) → field_id field ≠ fieldId).
Proof.
  unfold findFieldById, all_fields. rewrite find_in_pages_flat.
  split; [done|]. split.
  - intros field Hfind. apply find_some in Hfind as [Hin Hid].
    split; [|done]. by apply bool_decide_eq_true in Hid.
  - split.
    + intros Hnone field Hin Hid.
      pose proof (find_none _ _ Hnone field Hin) as Hne. simpl in Hne.
      apply bool_decide_eq_false in Hne. done.
    + intros Hall.
      destruct (List.find _ _) as [field|] eqn:Hfind; [|done].
      apply find_some in Hfind as [Hin Hid]. apply bool_decide_eq_true in Hid.
      by destruct (Hall field Hin).
Qed.

Lemma find_some_exists {A} (p : A → bool) (l : list A) (x : A) :
  In x l → p x = true → ∃ y, List.find p l = Some y.
Proof.
  intros Hin Hp. destruct (List.find p l) as [y|] eqn:Hfind; [eauto|].
  pose proof (find_none _ _ Hfind x Hin) as Hnone. congruence.
Qed.

(** X2.  A field that [getFieldsByPage] lists for a page can be looked up
    by its identifier: [findFieldById] finds a field of that identifier
    (the first one, if several fields share it). *)
Theorem getFieldsByPage_findFieldById (blueprint : FormBlueprint) (number : N)
    (field : FieldAnnotation) :
  In field (getFieldsByPage blueprint number) →
  ∃ found, findFieldById blueprint (field_id field) = Some found
           ∧ field_id found = field_id field.
Proof.
  unfold getFieldsByPage, findFieldById. rewrite find_in_pages_flat.
  destruct (List.find _ (pages blueprint)) as [page|] eqn:Hpage; [|done].
  intros Hin. apply find_some in Hpage as [Hpage _].
  assert (Hall : In field (flat_map fields (pages blueprint))).
  { apply in_flat_map. eauto. }
  destruct (find_some_exists (λ f, str_eqb (field_id f) (field_id field)) _ field Hall)
    as [found Hfound].
  { by apply bool_decide_eq_true. }
  exists found. split; [done|].
  apply find_some in Hfound as [_ Hid]. by apply bool_decide_eq_true in Hid.
Qed.

Lemma getFieldsByPage_findFieldById_witness :
  ∃ found, findFieldById sample_blueprint "wages" = Some found
           ∧ field_id found = "wages".
Proof.
  apply (getFieldsByPage_findFieldById sample_blueprint 1 wages_field).
  right. left. reflexivity.
Defined.

(** X3.  The key [typeDefaults] of the global style never comes through
    to the merged formatting: unless a type default, the preset or the
    field itself defines a key of that name, the merged formatting has
    none. *)
Theorem getMergedFormatting_no_typeDefaults (blueprint : FormBlueprint)
    (field : FieldAnnotation) :
  type_tier blueprint field !! "typeDefaults" = None →
  preset_tier blueprint field !! "typeDefaults" = None →
  field_tier field !! "typeDefaults" = None →
  getMergedFormatting blueprint field !! "typeDefaults" = None.
Proof.
  intros Htype Hpreset Hfield.
  rewrite getMergedFormatting_tiers, !lookup_union, Htype, Hpreset, Hfield.
  unfold global_tier. destruct (globalStyles blueprint); [|done].
  by rewrite lookup_delete_eq.
Qed.

Lemma getMergedFormatting_no_typeDefaults_witness :
  getMergedFormatting sample_blueprint wages_field !! "typeDefaults" = None.
Proof.
  exact (getMergedFormatting_no_typeDefaults sample_blueprint wages_field
           eq_refl eq_refl eq_refl).
Defined.

(** X4.  Merging is idempotent: a field that carries, as its own
    formatting, the merged formatting of a field of the same data type and
    preset, merges to that same formatting. *)
Theorem getMergedFormatting_idempotent (blueprint : FormBlueprint)
    (field merged_field : FieldAnnotation) :
  dataType merged_field = dataType field →
  stylePreset merged_field = stylePreset field →
  formatting merged_field = Some (getMergedFormatting blueprint field) →
  getMergedFormatting blueprint merged_field = getMergedFormatting blueprint field.
Proof.
  intros Htype Hpreset Hformatting.
  rewrite (getMergedFormatting_tiers blueprint merged_field).
  unfold field_tier, preset_tier, type_tier.
  rewrite Htype, Hpreset, Hformatting. simpl.
  rewrite (getMergedFormatting_tiers blueprint field).
  fold (type_tier blueprint field). fold (preset_tier blueprint field).
  apply map_eq. intros k. rewrite !lookup_union.
  destruct (field_tier field !! k), (preset_tier blueprint field !! k),
    (type_tier blueprint field !! k), (global_tier blueprint !! k); reflexivity.
Qed.

Lemma getMergedFormatting_idempotent_witness :
  getMergedFormatting sample_blueprint
    {| field_id := "wages2"; lineNumber := None; dataType := CURRENCY;
       dataBinding := {| path := "$.income.total" |};
       formatting := Some (getMergedFormatting sample_blueprint wages_field);
       validations := None; conditionalLogic := None; stylePreset := None |}
  = getMergedFormatting sample_blueprint wages_field.
Proof.
  exact (getMergedFormatting_idempotent sample_blueprint wages_field _
           eq_refl eq_refl eq_refl).
Defined.

(* ====================================================================== *)
(** * Further properties: the condition evaluator *)
(* ====================================================================== *)

(** The comparisons with NaN are all false. *)
Lemma SFltb_nan_r (x : number) : SFltb x S754_nan = false.
Proof. by destruct x. Qed.

Lemma SFleb_nan_r (x : number) : SFleb x S754_nan = false.
Proof. by destruct x. Qed.

Lemma is_nan_eq (x : number) : is_nan x = true → x = S754_nan.
Proof. by destruct x. Qed.

Lemma array_includes_undefined (xs : list scalar) : array_includes xs VUndef = false.
Proof. induction xs as [|x xs IH]; simpl; [done|]. by destruct x. Qed.

Lemma array_of_list_property (elements : list value) (k : string) (x : value) :
  properties (array_of_list elements) !! k = Some x →
  ∃ i, k = index_key (N.of_nat i) ∧ elements !! i = Some x.
Proof.
  unfold array_of_list. cbn [properties]. intros Hk%elem_of_list_to_map_2.
  apply elem_of_lookup_imap in Hk as (i & y & [= -> ->] & Hi). eauto.
Qed.

Lemma array_of_list_no_property (elements : list value) (k : string) :
  str_forallb is_digit k = false →
  properties (array_of_list elements) !! k = None.
Proof.
  intros Hk. destruct (properties (array_of_list elements) !! k) as [x|] eqn:Hx; [|done].
  apply array_of_list_property in Hx as (i & -> & _).
  destruct (pretty_N_all_digits (N.of_nat i)) as [Hdigits _].
  unfold index_key in Hk. by rewrite Hdigits in Hk.
Qed.

(** A comparison value always converts. *)
Lemma comparison_convertible (t : comparison_value) :
  convertible (value_of_comparison t) = true.
Proof.
  destruct t as [[]|xs]; try reflexivity.
  cbn [value_of_comparison].
  pose proof (array_of_list_no_property (value_of_scalar <$> xs) "toString" eq_refl)
    as HtoString.
  pose proof (array_of_list_property (value_of_scalar <$> xs)) as Helement.
  unfold array_of_list in *. cbn [properties] in *. cbn [convertible].
  rewrite HtoString. cbn [negb andb]. rewrite bool_decide_eq_false_2 by (by intros [? ?]).
  cbn [negb andb]. apply orb_true_intro. right.
  apply forallb_forall. intros i _. rewrite lookup_fmap.
  destruct (_ !! index_key (N.of_nat i)) as [x|] eqn:Hx; [|done].
  apply Helement in Hx as (j & _ & Hj). cbn.
  apply list_lookup_fmap_Some in Hj as (y & -> & _). by destruct y.
Qed.

Lemma comparison_to_string (t : comparison_value) `{rt : Runtime} :
  to_string_value (value_of_comparison t) = Ret (string_of_value (value_of_comparison t)).
Proof. unfold to_string_value. by rewrite comparison_convertible. Qed.

Lemma comparison_to_number (t : comparison_value) `{rt : Runtime} :
  ∃ b, to_number_value (value_of_comparison t) = Ret b.
Proof.
  destruct t as [[]|xs]; try (by eexists).
  change (to_number_value (value_of_comparison (Array xs)))
    with (s ← to_string_value (value_of_comparison (Array xs));
          Ret (string_to_number s)).
  rewrite comparison_to_string. by eexists.
Qed.

Lemma to_number_convertible `{rt : Runtime} (v : value) :
  (convertible v = true → ∃ a, to_number_value v = Ret a)
  ∧ (convertible v = false → to_number_value v = Throw TypeError).
Proof.
  unfold to_number_value, to_string_value.
  destruct v; try (split; [by eexists|done]);
    destruct (convertible _); split; try done; by eexists.
Qed.

Section MoreConditionProperties.
Context {rt : Runtime}.

(** X5.  [NOT_EQUALS], [IS_NOT_EMPTY] and [NOT_IN] answer the opposite of
    [EQUALS], [IS_EMPTY] and [IN]: on the same source and comparison value
    the one returns the negation of what the other returns, and throws
    where the other throws. *)
Theorem evaluateCondition_opposite (condition opposite : Condition) (data : value)
    (blueprint : FormBlueprint) :
  cond_source opposite = cond_source condition →
  cond_value opposite = cond_value condition →
  opposite_operator (cond_operator condition) = Some (cond_operator opposite) →
  evaluateCondition opposite data blueprint
  = negb <$> evaluateCondition condition data blueprint.
Proof.
  intros Hsource Hvalue Hop. unfold evaluateCondition, resolve_source.
  rewrite Hsource, Hvalue.
  destruct (if startsWith (cond_source condition) "$" then _ else _)
    as [sourceValue|]; [|done].
  rewrite !bind_Ret.
  destruct (cond_operator condition); try discriminate;
    injection Hop as <-; simpl.
  - done.
  - by rewrite negb_orb.
  - by destruct (cond_value condition).
Qed.

(** X6.  The four ordering operators are false as soon as one side is not
    a number: when the source value or the comparison value converts to
    NaN, greater, greater or equal, less and less or equal all return
    false.  A source that resolves to [undefined] is such a case, so "less
    or equal" is not the negation of "greater".  When the source value
    does not convert (an object with a [toString] of its own), they throw
    a [TypeError]. *)
Theorem evaluateCondition_ordering_nan (condition : Condition) (data : value)
    (blueprint : FormBlueprint) (sourceValue : value) :
  ordering_operator (cond_operator condition) = true →
  resolve_source condition data blueprint = Ret sourceValue →
  (∀ a b,
     to_number_value sourceValue = Ret a →
     to_number_value (value_of_comparison (cond_value condition)) = Ret b →
     is_nan a = true ∨ is_nan b = true →
     evaluateCondition condition data blueprint = Ret false)
  ∧ (sourceValue = VUndef → evaluateCondition condition data blueprint = Ret false)
  ∧ (convertible sourceValue = false →
     evaluateCondition condition data blueprint = Throw TypeError).
Proof.
  intros Hop Hsource.
  assert (Hnan : ∀ a b,
     to_number_value sourceValue = Ret a →
     to_number_value (value_of_comparison (cond_value condition)) = Ret b →
     is_nan a = true ∨ is_nan b = true →
     evaluateCondition condition data blueprint = Ret false).
  { intros a b Ha Hb Hnan. unfold evaluateCondition. rewrite Hsource, bind_Ret.
    unfold num_gt, num_ge, num_lt, num_le.
    destruct (cond_operator condition); try discriminate;
      rewrite Ha, bind_Ret, Hb, bind_Ret;
      destruct Hnan as [->%is_nan_eq| ->%is_nan_eq];
      rewrite ?SFltb_nan_r, ?SFleb_nan_r; try done;
      by destruct a. }
  split; [exact Hnan|]. split.
  - intros ->.
    destruct (comparison_to_number (cond_value condition)) as [b Hb].
    apply (Hnan NaN b); [done|done|by left].
  - intros Hobject%to_number_convertible.
    unfold evaluateCondition. rewrite Hsource, bind_Ret.
    destruct (cond_operator condition); try discriminate; by rewrite Hobject.
Qed.

(** X7.  Where [evaluateCondition] can throw.  On a blueprint whose
    binding paths are rooted, the operators that convert nothing return a
    boolean, [MATCHES_PATTERN] apart.  Those that convert the source value
    (the ordering operators and [CONTAINS]) return a boolean when the
    value converts, and throw a [TypeError] when it does not.
    [MATCHES_PATTERN] returns false unless both the source value and the
    comparison value are strings; when they are, it returns what the
    regular expression says, and throws a [SyntaxError] when the
    comparison value is not a pattern. *)
Theorem evaluateCondition_throws (condition : Condition) (data : value)
    (blueprint : FormBlueprint) :
  (binding_paths_rooted blueprint = true →
   cond_operator condition ≠ MATCHES_PATTERN →
   converting_operator (cond_operator condition) = false →
   returns (evaluateCondition condition data blueprint) = true)
  ∧ (∀ sourceValue,
       converting_operator (cond_operator condition) = true →
       resolve_source condition data blueprint = Ret sourceValue →
       (convertible sourceValue = true →
        returns (evaluateCondition condition data blueprint) = true)
       ∧ (convertible sourceValue = false →
          evaluateCondition condition data blueprint = Throw TypeError))
  ∧ (∀ sourceValue,
       cond_operator condition = MATCHES_PATTERN →
       resolve_source condition data blueprint = Ret sourceValue →
       evaluateCondition condition data blueprint =
         match sourceValue, cond_value condition with
         | VStr s, Scalar (SString pattern) =>
             match regexp_test pattern s with
             | Some matched => Ret matched
             | None => Throw SyntaxError
             end
         | _, _ => Ret false
         end).
Proof.
  split; [|split].
  - intros Hrooted Hop Hconverting. unfold evaluateCondition.
    destruct (resolve_source_returns condition data blueprint Hrooted) as [sourceValue ->].
    rewrite bind_Ret.
    destruct (cond_operator condition); try done;
      by destruct (cond_value condition).
  - intros sourceValue Hconverting Hsource. unfold evaluateCondition.
    rewrite Hsource, bind_Ret.
    destruct (comparison_to_number (cond_value condition)) as [b Hb].
    pose proof (comparison_to_string (cond_value condition)) as Ht.
    destruct (to_number_convertible sourceValue) as [Hreturns Hthrows].
    split.
    + intros Hconvertible. destruct (Hreturns Hconvertible) as [a Ha].
      unfold to_string_value in *. rewrite Hconvertible.
      destruct (cond_operator condition); try discriminate;
        rewrite ?Ha, ?bind_Ret, ?Hb, ?Ht; done.
    + intros Hobject. specialize (Hthrows Hobject).
      unfold to_string_value. rewrite Hobject.
      destruct (cond_operator condition); try discriminate; by rewrite ?Hthrows.
  - intros sourceValue Hop Hsource. unfold evaluateCondition.
    by rewrite Hsource, bind_Ret, Hop.
Qed.

(** X8.  A source that neither starts with the root marker nor names a
    field of the blueprint stands for an absent value: the condition is
    true for [IS_EMPTY], [NOT_EQUALS] and [NOT_IN] and false for
    [IS_NOT_EMPTY], [EQUALS] and [IN], whatever the record and the
    comparison value. *)
Theorem evaluateCondition_unknown_field (condition : Condition) (data : value)
    (blueprint : FormBlueprint) :
  startsWith (cond_source condition) "$" = false →
  findFieldById blueprint (cond_source condition) = None →
  (cond_operator condition = IS_EMPTY ∨ cond_operator condition = NOT_EQUALS
     ∨ cond_operator condition = NOT_IN →
   evaluateCondition condition data blueprint = Ret true)
  ∧ (cond_operator condition = IS_NOT_EMPTY ∨ cond_operator condition = EQUALS
       ∨ cond_operator condition = IN →
     evaluateCondition condition data blueprint = Ret false).
Proof.
  intros Hsource Hfield. unfold evaluateCondition, resolve_source.
  rewrite Hsource, Hfield, bind_Ret.
  split; intros [-> | [-> | ->]]; try done;
    destruct (cond_value condition) as [[]|xs]; simpl; try done;
    by rewrite array_includes_undefined.
Qed.

(** X9.  Under [AND] the logic is true exactly when every condition is,
    and under [OR] exactly when some condition is; with no condition at
    all, [AND] is true and [OR] is false. *)
Theorem evaluateConditionalLogic_AND_OR (logic : ConditionalLogic) (data : value)
    (blueprint : FormBlueprint) (results : list bool) :
  evaluate_conditions (conditions logic) data blueprint = Ret results →
  (logic_operator logic = AND →
     ∃ b, evaluateConditionalLogic logic data blueprint = Ret b
          ∧ (b = true ↔ Forall (λ r, r = true) results)
          ∧ (conditions logic = [] → b = true))
  ∧ (logic_operator logic = OR →
       ∃ b, evaluateConditionalLogic logic data blueprint = Ret b
            ∧ (b = true ↔ Exists (λ r, r = true) results)
            ∧ (conditions logic = [] → b = false)).
Proof.
  intros Hresults. unfold evaluateConditionalLogic. rewrite Hresults, bind_Ret.
  split; intros ->; eexists; (split; [reflexivity|]); simpl; split.
  - rewrite forallb_forall, Forall_forall. by setoid_rewrite list_elem_of_In.
  - intros Hnone. rewrite Hnone in Hresults. by injection Hresults as <-.
  - rewrite existsb_exists, Exists_exists. setoid_rewrite list_elem_of_In.
    split; intros (r & ? & ?); exists r; done.
  - intros Hnone. rewrite Hnone in Hresults. by injection Hresults as <-.
Qed.

Lemma evaluate_conditions_throws (before after : list Condition) (condition : Condition)
    (data : value) (blueprint : FormBlueprint) (e : js_error) :
  Forall (λ c, returns (evaluateCondition c data blueprint) = true) before →
  evaluateCondition condition data blueprint = Throw e →
  evaluate_conditions (before ++ condition :: after) data blueprint = Throw e.
Proof.
  intros Hbefore Hthrow. induction Hbefore as [|c before Hc _ IH]; cbn [app].
  - rewrite evaluate_conditions_cons. by rewrite Hthrow.
  - rewrite evaluate_conditions_cons.
    destruct (evaluateCondition c data blueprint); [|done].
    rewrite bind_Ret, IH. done.
Qed.

(** X10.  The conditions are all evaluated before the operator is looked
    at: when one of them throws (and those before it return), the logic
    throws the same error under every operator, even when the conditions
    before it have settled the outcome. *)
Theorem evaluateConditionalLogic_eager (logic : ConditionalLogic) (data : value)
    (blueprint : FormBlueprint) (before after : list Condition)
    (condition : Condition) (e : js_error) :
  conditions logic = before ++ condition :: after →
  Forall (λ c, returns (evaluateCondition c data blueprint) = true) before →
  evaluateCondition condition data blueprint = Throw e →
  evaluateConditionalLogic logic data blueprint = Throw e.
Proof.
  intros Hconditions Hbefore Hthrow. unfold evaluateConditionalLogic.
  by rewrite Hconditions, (evaluate_conditions_throws _ _ _ _ _ _ Hbefore Hthrow).
Qed.

End MoreConditionProperties.

Lemma evaluateCondition_opposite_witness :
  evaluateCondition (rt := sample_runtime)
    (condition_of "$.taxpayer.firstName" NOT_EQUALS (Scalar (SString "Jane")))
    sample_record sample_blueprint
  = negb <$> evaluateCondition (rt := sample_runtime) is_jane sample_record
               sample_blueprint.
Proof.
  exact (evaluateCondition_opposite (rt := sample_runtime) is_jane
           (condition_of "$.taxpayer.firstName" NOT_EQUALS (Scalar (SString "Jane")))
           sample_record sample_blueprint eq_refl eq_refl eq_refl).
Defined.

Lemma evaluateCondition_ordering_nan_witness :
  evaluateCondition (rt := sample_runtime)
    (condition_of "spouseName" LESS_THAN_OR_EQUALS (Scalar (SNumber (number_of_Z 5))))
    sample_record sample_blueprint
  = Ret false
  ∧ evaluateCondition (rt := sample_runtime)
      (condition_of "$.amount" LESS_THAN_OR_EQUALS (Scalar (SNumber (number_of_Z 5))))
      unprintable_record sample_blueprint
    = Throw TypeError.
Proof.
  split.
  - exact (proj1 (proj2 (evaluateCondition_ordering_nan (rt := sample_runtime)
                           (condition_of "spouseName" LESS_THAN_OR_EQUALS
                              (Scalar (SNumber (number_of_Z 5))))
                           sample_record sample_blueprint VUndef eq_refl eq_refl))
             eq_refl).
  - exact (proj2 (proj2 (evaluateCondition_ordering_nan (rt := sample_runtime)
                           (condition_of "$.amount" LESS_THAN_OR_EQUALS
                              (Scalar (SNumber (number_of_Z 5))))
                           unprintable_record sample_blueprint
                           (object_of_list [("toString", VStr "x")]) eq_refl eq_refl))
             eq_refl).
Defined.

Lemma evaluateCondition_throws_witness :
  evaluateCondition (rt := sample_runtime)
    (condition_of "ssn" MATCHES_PATTERN (Scalar (SString "(")))
    sample_record sample_blueprint
  = Throw SyntaxError
  ∧ evaluateCondition (rt := sample_runtime)
      (condition_of "$.amount" CONTAINS (Scalar (SString "abc")))
      unprintable_record sample_blueprint
    = Throw TypeError.
Proof.
  split.
  - exact (proj2 (proj2 (evaluateCondition_throws (rt := sample_runtime)
                           (condition_of "ssn" MATCHES_PATTERN (Scalar (SString "(")))
                           sample_record sample_blueprint))
             (VStr "123456789") eq_refl eq_refl).
  - exact (proj2 (proj1 (proj2 (evaluateCondition_throws (rt := sample_runtime)
                                  (condition_of "$.amount" CONTAINS
                                     (Scalar (SString "abc")))
                                  unprintable_record sample_blueprint))
                    (object_of_list [("toString", VStr "x")]) eq_refl eq_refl)
             eq_refl).
Defined.

Lemma evaluateCondition_unknown_field_witness :
  evaluateCondition (rt := sample_runtime)
    (condition_of "filingStatus" IS_EMPTY (Scalar (SString "")))
    sample_record sample_blueprint
  = Ret true.
Proof.
  apply (proj1 (evaluateCondition_unknown_field (rt := sample_runtime)
                  (condition_of "filingStatus" IS_EMPTY (Scalar (SString "")))
                  sample_record sample_blueprint eq_refl eq_refl)).
  left. reflexivity.
Defined.

Lemma evaluateConditionalLogic_AND_OR_witness :
  ∃ b, evaluateConditionalLogic (rt := sample_runtime)
         {| conditions := [has_first_name; has_spouse];
            logic_operator := OR; action := SHOW |}
         sample_record sample_blueprint = Ret b
       ∧ (b = true ↔ Exists (λ r, r = true) [true; false])
       ∧ (conditions {| conditions := [has_first_name; has_spouse];
                        logic_operator := OR; action := SHOW |} = [] → b = false).
Proof.
  exact (proj2 (evaluateConditionalLogic_AND_OR (rt := sample_runtime)
                  {| conditions := [has_first_name; has_spouse];
                     logic_operator := OR; action := SHOW |}
                  sample_record sample_blueprint [true; false] eq_refl)
           eq_refl).
Defined.

Lemma evaluateConditionalLogic_eager_witness :
  evaluateConditionalLogic (rt := sample_runtime)
    {| conditions := [has_first_name;
                      condition_of "ssn" MATCHES_PATTERN (Scalar (SString "("))];
       logic_operator := OR; action := SHOW |}
    sample_record sample_blueprint
  = Throw SyntaxError.
Proof.
  apply (evaluateConditionalLogic_eager (rt := sample_runtime) _ _ _
           [has_first_name] []
           (condition_of "ssn" MATCHES_PATTERN (Scalar (SString "(")))
           SyntaxError);
    [reflexivity | repeat constructor | reflexivity].
Defined.

(* ====================================================================== *)
(** * Further properties: validation *)
(* ====================================================================== *)

Lemma number_of_N_not_negative (n : N) : num_lt (number_of_N n) pos_zero = false.
Proof.
  apply unsigned_not_negative. unfold number_of_N, number_of_Z, binary_normalize.
  destruct n as [|p]; [done|]. apply binary_round_unsigned.
Qed.

Lemma nothing_above_infinity (x : number) : num_gt x (S754_infinity false) = false.
Proof. by destruct x as [| [] | |]. Qed.

Section MoreValidationProperties.
Context {rt : Runtime}.

(** An error carries the identity of the field and of the rule it comes
    from. *)
Lemma validateRule_error (field : FieldAnnotation) (v : value) (rule : ValidationRule)
    (error : ValidationError) :
  validateRule field v rule = Ret (Some error) →
  err_rule error = rule_type rule
  ∧ err_fieldId error = field_id field
  ∧ err_lineNumber error = lineNumber field
  ∧ err_message error = rule_message rule
  ∧ err_severity error = default ERROR (rule_severity rule).
Proof.
  unfold validateRule, regexp_matches. intros Hrule.
  assert (∀ actual expected,
    Some {| err_fieldId := field_id field; err_lineNumber := lineNumber field;
            err_message := rule_message rule;
            err_severity := default ERROR (rule_severity rule);
            err_rule := rule_type rule; actualValue := actual;
            expectedValue := expected |} = Some error →
    err_rule error = rule_type rule
    ∧ err_fieldId error = field_id field
    ∧ err_lineNumber error = lineNumber field
    ∧ err_message error = rule_message rule
    ∧ err_severity error = default ERROR (rule_severity rule)) as Hreport.
  { by intros actual expected [= <-]. }
  destruct (rule_type rule); destruct v; simpl in Hrule;
    repeat (case_match; simpl in Hrule; try done);
    injection Hrule as Hrule; try discriminate Hrule;
    eapply Hreport; rewrite <- Hrule; f_equal.
Qed.

Lemma validate_rules_errors (field : FieldAnnotation) (v : value)
    (rules : list ValidationRule) (found out : list ValidationError) :
  validate_rules field v rules found = Ret out →
  ∃ new, out = found ++ new
         ∧ sublist ((λ e, (err_rule e, err_message e)) <$> new)
                   ((λ r, (rule_type r, rule_message r)) <$> rules)
         ∧ Forall (λ e, err_fieldId e = field_id field) new.
Proof.
  revert found. induction rules as [|rule rules IH]; intros found; simpl.
  - intros [= <-]. exists []. by rewrite app_nil_r.
  - destruct (validateRule field v rule) as [[error|]|] eqn:Hrule; simpl; [| |done].
    + intros (new & -> & Hsub & Hids)%IH.
      destruct (validateRule_error _ _ _ _ Hrule) as (Hr & Hf & _ & Hm & _).
      exists (error :: new). rewrite <- app_assoc. split; [done|]. split.
      * simpl. rewrite Hr, Hm. by apply sublist_skip.
      * by constructor.
    + intros (new & -> & Hsub & Hids)%IH. exists new. split; [done|]. split; [|done].
      by apply sublist_cons.
Qed.

(** X11.  [validateField] reports at most one error for each rule, in the
    order of the rules: the kinds and messages of the errors are those of
    some of the rules, in the same order, and every error is on the field
    validated.  A field with no rules has no errors. *)
Theorem validateField_errors (field : FieldAnnotation) (v : value)
    (found : list ValidationError) :
  validateField field v = Ret found →
  sublist ((λ e, (err_rule e, err_message e)) <$> found)
          ((λ r, (rule_type r, rule_message r)) <$> default [] (validations field))
  ∧ length found ≤ length (default [] (validations field))
  ∧ Forall (λ e, err_fieldId e = field_id field) found.
Proof.
  unfold validateField. destruct (validations field) as [rules|]; simpl.
  - intros (new & -> & Hsub & Hids)%validate_rules_errors. simpl.
    split; [done|]. split; [|done].
    apply sublist_length in Hsub. by rewrite !length_fmap in Hsub.
  - intros [= <-]. split; [constructor|]. split; [done|constructor].
Qed.

(** X12.  The rules the engine does not enforce never fail.  A rule
    [custom], [cross_field] or [luhn] passes every value; the length and
    pattern rules pass every value that is not a string; the range rule
    passes every value that is not a number. *)
Theorem validateRule_not_applicable (field : FieldAnnotation) (v : value)
    (rule : ValidationRule) :
  (rule_type rule = CUSTOM ∨ rule_type rule = CROSS_FIELD ∨ rule_type rule = LUHN →
   validateRule field v rule = Ret None)
  ∧ (typeof v ≠ "string" →
     rule_type rule = MIN_LENGTH ∨ rule_type rule = MAX_LENGTH ∨ rule_type rule = PATTERN →
     validateRule field v rule = Ret None)
  ∧ (typeof v ≠ "number" → rule_type rule = RANGE →
     validateRule field v rule = Ret None).
Proof.
  unfold validateRule. split; [|split].
  - by intros [-> | [-> | ->]].
  - intros Htype [-> | [-> | ->]]; by destruct v.
  - intros Htype ->. by destruct v.
Qed.

(** X13.  A range rule passes a number exactly when the number is neither
    below the minimum nor above the maximum, each taken into account only
    when the rule gives it.  The comparisons with NaN being false, NaN
    passes every range rule. *)
Theorem validateRule_range (field : FieldAnnotation) (n : number)
    (rule : ValidationRule) :
  rule_type rule = RANGE →
  (validateRule field (VNum n) rule = Ret None ↔
     (∀ lo, rule_min rule = Some lo → num_lt n lo = false)
     ∧ (∀ hi, rule_max rule = Some hi → num_gt n hi = false))
  ∧ (is_nan n = true → validateRule field (VNum n) rule = Ret None).
Proof.
  intros Htype. unfold validateRule. rewrite Htype.
  split.
  - destruct (rule_min rule) as [lo|], (rule_max rule) as [hi|];
      try destruct (num_lt n lo) eqn:Hlo; try destruct (num_gt n hi) eqn:Hhi;
      (split;
       [ intros Hnone; try discriminate Hnone; split; intros ? [= <-]; done
       | intros [Hmin Hmax];
         try specialize (Hmin _ eq_refl); try specialize (Hmax _ eq_refl);
         first [done | congruence] ]).
  - intros ->%is_nan_eq. unfold num_gt.
    destruct (rule_min rule) as [lo|], (rule_max rule) as [hi|];
      rewrite ?SFltb_nan_r; try done; by destruct lo.
Qed.

(** X14.  A length rule that gives no length never fails: the minimum
    defaults to zero and the maximum to infinity. *)
Theorem validateRule_no_length (field : FieldAnnotation) (v : value)
    (rule : ValidationRule) :
  rule_length rule = None →
  rule_type rule = MIN_LENGTH ∨ rule_type rule = MAX_LENGTH →
  validateRule field v rule = Ret None.
Proof.
  intros Hlength Htype. unfold validateRule. rewrite Hlength.
  destruct Htype as [-> | ->]; destruct v; simpl; try done.
  - by rewrite number_of_N_not_negative.
  - by rewrite nothing_above_infinity.
Qed.

(** X15.  A pattern rule on a string: with no pattern, or an empty one,
    it passes; otherwise it passes when the regular expression matches,
    reports the string and the pattern when it does not, and throws a
    [SyntaxError] when the pattern is not a regular expression. *)
Theorem validateRule_pattern (field : FieldAnnotation) (s : string)
    (rule : ValidationRule) :
  rule_type rule = PATTERN →
  (rule_pattern rule = None ∨ rule_pattern rule = Some "" →
   validateRule field (VStr s) rule = Ret None)
  ∧ (∀ pattern, rule_pattern rule = Some pattern → pattern ≠ "" →
       match regexp_test pattern s with
       | Some true => validateRule field (VStr s) rule = Ret None
       | Some false =>
           ∃ error, validateRule field (VStr s) rule = Ret (Some error)
                    ∧ actualValue error = VStr s
                    ∧ expectedValue error = Some (VStr pattern)
       | None => validateRule field (VStr s) rule = Throw SyntaxError
       end).
Proof.
  intros Htype. unfold validateRule, regexp_matches. rewrite Htype. split.
  - by intros [-> | ->].
  - intros pattern -> Hpattern.
    assert (str_eqb pattern "" = false) as -> by (by apply bool_decide_eq_false).
    simpl. destruct (regexp_test pattern s) as [[]|]; simpl; eauto.
Qed.

Lemma bucket_errors_sorted (fieldErrors : list ValidationError) (acc : buckets) :
  sorted_by_severity acc → sorted_by_severity (bucket_errors fieldErrors acc).
Proof.
  revert acc. induction fieldErrors as [|error rest IH]; intros acc [He Hw]; simpl.
  - done.
  - case_bool_decide as Hseverity; apply IH; split; simpl; try done.
    + apply Forall_app. split; [done|]. by constructor.
    + apply Forall_app. split; [done|]. by constructor.
Qed.

Lemma validate_fields_sorted (blueprint : FormBlueprint) (data : value)
    (fs : list FieldAnnotation) (acc out : buckets) :
  sorted_by_severity acc →
  validate_fields blueprint data fs acc = Ret out →
  sorted_by_severity out.
Proof.
  revert acc. induction fs as [|field fs IH]; intros acc Hacc; simpl.
  - by intros [= <-].
  - unfold validate_form_field at 1.
    destruct (match conditionalLogic field with
              | Some logic => _
              | None => Ret false
              end) as [[]|]; simpl; [by apply IH| |done].
    destruct (resolveJSONPath _ data) as [v|]; simpl; [|done].
    destruct (validateField field v) as [fieldErrors|]; simpl; [|done].
    apply IH. by apply bucket_errors_sorted.
Qed.

(** X16.  What [validateForm] returns is sorted by severity: every entry
    of [errors] has the severity [error], no entry of [warnings] has it,
    and the result is valid exactly when [errors] is empty. *)
Theorem validateForm_sorted (blueprint : FormBlueprint) (data : value)
    (result : ValidationResult) :
  validateForm blueprint data = Ret result →
  Forall (λ e, err_severity e = ERROR) (errors result)
  ∧ Forall (λ e, err_severity e = WARNING ∨ err_severity e = INFO) (warnings result)
  ∧ (isValid result = true ↔ errors result = []).
Proof.
  unfold validateForm. rewrite validate_pages_fields.
  destruct (validate_fields _ _ _ _) as [acc|] eqn:Hfields; simpl; [|done].
  intros [= <-]. simpl.
  assert (sorted_by_severity ([], [])) as Hempty by (split; constructor).
  destruct (validate_fields_sorted _ _ _ _ _ Hempty Hfields) as [He Hw].
  split; [done|]. split.
  - eapply Forall_impl; [exact Hw|]. intros e. simpl.
    destruct (err_severity e); [done | by left | by right].
  - rewrite Nat.eqb_eq. by destruct acc.1.
Qed.

(** X17.  A field whose conditional logic has the action [show] and
    evaluates to false is not validated at all: alone in a blueprint it
    gives a valid result with no entry, whatever its rules are, and even
    when its binding path is one [resolveJSONPath] would reject. *)
Theorem validateForm_hidden_field (blueprint : FormBlueprint) (data : value)
    (field : FieldAnnotation) (logic : ConditionalLogic) :
  all_fields blueprint = [field] →
  conditionalLogic field = Some logic →
  action logic = SHOW →
  evaluateConditionalLogic logic data blueprint = Ret false →
  validateForm blueprint data
  = Ret {| isValid := true; errors := []; warnings := [] |}.
Proof.
  unfold all_fields. intros Hsingle Hlogic Haction Hfalse.
  unfold validateForm. rewrite validate_pages_fields, Hsingle.
  cbn [validate_fields]. unfold validate_form_field.
  by rewrite Hlogic, Hfalse, Haction.
Qed.

(** X18.  [validateForm] throws the error of the invalid path when the
    first field of the blueprint has no conditional logic and a binding
    path that does not start with the root marker. *)
Theorem validateForm_unrooted_binding (blueprint : FormBlueprint) (data : value)
    (field : FieldAnnotation) (others : list FieldAnnotation) :
  all_fields blueprint = field :: others →
  conditionalLogic field = None →
  startsWith (path (dataBinding field)) "$" = false →
  validateForm blueprint data = Throw (invalid_path (path (dataBinding field))).
Proof.
  unfold all_fields. intros Hfields Hlogic Hroot.
  unfold validateForm. rewrite validate_pages_fields, Hfields.
  cbn [validate_fields]. unfold validate_form_field at 1.
  rewrite Hlogic, bind_Ret. cbv iota. unfold resolveJSONPath. by rewrite Hroot.
Qed.

End MoreValidationProperties.

Lemma validateField_errors_witness :
  ∃ found,
    validateField (rt := sample_runtime) spouse_field (VStr "A") = Ret found
    ∧ length found ≤ 2
    ∧ Forall (λ e, err_fieldId e = "spouseName") found.
Proof.
  eexists. split; [reflexivity|].
  exact (proj2 (validateField_errors (rt := sample_runtime) spouse_field (VStr "A") _
                  eq_refl)).
Defined.

Lemma validateRule_not_applicable_witness :
  validateRule (rt := sample_runtime) ssn_field (VNum (number_of_Z 7)) word_rule = Ret None.
Proof.
  apply (proj1 (proj2 (validateRule_not_applicable (rt := sample_runtime) ssn_field
                         (VNum (number_of_Z 7)) word_rule)));
    [discriminate | right; right; reflexivity].
Defined.

Lemma validateRule_range_witness :
  validateRule (rt := sample_runtime) wages_field (VNum (number_of_Z 50)) percent_rule
  = Ret None.
Proof.
  apply (proj2 (proj1 (validateRule_range (rt := sample_runtime) wages_field
                         (number_of_Z 50) percent_rule eq_refl))).
  split; intros bound [= <-]; reflexivity.
Defined.

Lemma validateRule_no_length_witness :
  validateRule (rt := sample_runtime) ssn_field (VStr "") (rule_of MIN_LENGTH "Too short")
  = Ret None.
Proof.
  exact (validateRule_no_length (rt := sample_runtime) ssn_field (VStr "")
           (rule_of MIN_LENGTH "Too short") eq_refl (or_introl eq_refl)).
Defined.

Lemma validateRule_pattern_witness :
  ∃ error,
    validateRule (rt := sample_runtime) ssn_field (VStr "xyz") word_rule = Ret (Some error)
    ∧ actualValue error = VStr "xyz"
    ∧ expectedValue error = Some (VStr "abc").
Proof.
  apply (proj2 (validateRule_pattern (rt := sample_runtime) ssn_field "xyz" word_rule
                  eq_refl) "abc" eq_refl).
  discriminate.
Defined.

Lemma validateForm_sorted_witness :
  ∃ result,
    validateForm (rt := sample_runtime) sample_blueprint sample_record = Ret result
    ∧ Forall (λ e, err_severity e = ERROR) (errors result)
    ∧ Forall (λ e, err_severity e = WARNING ∨ err_severity e = INFO) (warnings result)
    ∧ (isValid result = true ↔ errors result = []).
Proof.
  eexists. split; [reflexivity|].
  exact (validateForm_sorted (rt := sample_runtime) sample_blueprint sample_record _
           eq_refl).
Defined.

Lemma validateForm_hidden_field_witness :
  validateForm (rt := sample_runtime) hidden_blueprint sample_record
  = Ret {| isValid := true; errors := []; warnings := [] |}.
Proof.
  exact (validateForm_hidden_field (rt := sample_runtime) hidden_blueprint sample_record
           hidden_field
           {| conditions := [is_jane]; logic_operator := AND; action := SHOW |}
           eq_refl eq_refl eq_refl eq_refl).
Defined.

Lemma validateForm_unrooted_binding_witness :
  validateForm (rt := sample_runtime) unrooted_blueprint sample_record
  = Throw (invalid_path "taxpayer.ssn").
Proof.
  exact (validateForm_unrooted_binding (rt := sample_runtime) unrooted_blueprint
           sample_record (field_of "ssn" SSN "taxpayer.ssn") [spouse_field]
           eq_refl eq_refl eq_refl).
Defined.

(* ====================================================================== *)
(** * Further properties: the path functions *)
(* ====================================================================== *)


Lemma startsWith_root_app (p q : string) :
  startsWith p "$" = true → startsWith (p +:+ q) "$" = true.
Proof. by destruct p. Qed.

Lemma slice1_app (p q : string) :
  startsWith p "$" = true → slice1 (p +:+ q) = slice1 p +:+ q.
Proof. by destruct p. Qed.

(** The segments of a path and of what is appended to it after a dot. *)
Lemma path_segments_app (p q : string) :
  startsWith p "$" = true →
  path_segments (p +:+ "." +:+ q) = path_segments p ++ path_segments ("$." +:+ q).
Proof.
  intros Hroot. unfold path_segments. rewrite slice1_app by done.
  change ("." +:+ q) with (String "." q).
  by rewrite split_app_separator, List.filter_app.
Qed.

(** A turn of the loop that returns gives [undefined], or the array a
    wildcard asks for. *)
Lemma resolve_segment_return (segment : string) (current v : value) :
  resolve_segment segment current = Ret (Return v) →
  v = VUndef ∨ (wildcard_segment segment = true ∧ isArray v = true).
Proof.
  unfold resolve_segment, wildcard_segment.
  destruct (is_nullish current); [intros [= <-]; by left|].
  destruct (match_array_segment segment) as [[propName indexOrWildcard]|].
  - destruct (negb (str_eqb (typeof current) "object")); [intros [= <-]; by left|].
    destruct (get_prop current propName) as [found|]; simpl; [|done].
    destruct (isArray found) eqn:Harray; simpl; [|intros [= <-]; by left].
    destruct (str_eqb indexOrWildcard "*"); [intros [= <-]; by right|].
    by destruct (get_prop found _).
  - destruct (negb (str_eqb (typeof current) "object")); [intros [= <-]; by left|].
    by destruct (get_prop current segment).
Qed.

Lemma resolve_loop_app (pre rest : list string) (data : value) :
  forallb (λ segment, negb (wildcard_segment segment)) pre = true →
  resolve_loop (pre ++ rest) data = resolve_loop pre data ≫= resolve_loop rest.
Proof.
  revert data. induction pre as [|segment pre IH]; intros data; [done|].
  cbn [forallb]. intros [Hsegment Hpre]%andb_prop. cbn [app].
  rewrite !resolve_loop_cons.
  destruct (resolve_segment segment data) as [[v|next]|e] eqn:Hstep; simpl; [| |done].
  - apply resolve_segment_return in Hstep as [-> | [Hwild _]].
    + by rewrite resolve_loop_undefined.
    + by rewrite Hwild in Hsegment.
  - by apply IH.
Qed.

Lemma resolve_segment_primitive (segment : string) (current : value) :
  primitive current = true → resolve_segment segment current = Ret (Return VUndef).
Proof.
  unfold resolve_segment.
  destruct current; try done; intros _; simpl; by destruct (match_array_segment segment) as [[]|].
Qed.

Lemma resolve_loop_primitive (pre rest : list string) (data v : value) :
  resolve_loop pre data = Ret v → primitive v = true → rest ≠ [] →
  resolve_loop (pre ++ rest) data = Ret VUndef.
Proof.
  intros Hpre Hv Hrest. revert data Hpre.
  induction pre as [|segment pre IH]; intros data.
  - intros [= ->]. destruct rest as [|segment rest]; [done|]. cbn [app].
    by rewrite resolve_loop_cons, resolve_segment_primitive.
  - cbn [app]. rewrite !resolve_loop_cons.
    destruct (resolve_segment segment data) as [[x|next]|e] eqn:Hstep; simpl; [| |done].
    + intros [= ->]. apply resolve_segment_return in Hstep as [-> | [_ Harray]]; [done|].
      by destruct v.
    + by apply IH.
Qed.

(** X19.  Resolution composes along a path without wildcard: resolving
    [p.q] is resolving [p] and then resolving [$.q] in what was found. *)
Theorem resolveJSONPath_compose (p q : string) (data : value) :
  startsWith p "$" = true →
  forallb (λ segment, negb (wildcard_segment segment)) (path_segments p) = true →
  resolveJSONPath (p +:+ "." +:+ q) data
  = found ← resolveJSONPath p data; resolveJSONPath ("$." +:+ q) found.
Proof.
  intros Hroot Hplain. unfold resolveJSONPath.
  rewrite (startsWith_root_app p _ Hroot), Hroot. cbn [negb startsWith].
  rewrite path_segments_app by done. simpl. by apply resolve_loop_app.
Qed.

(** X20.  A path never reads a property of a primitive.  When a path
    resolves to [undefined], [null], a boolean, a number or a string, the
    path prolonged by one segment or more resolves to [undefined]: the
    length of a string, for one, cannot be read with a path. *)
Theorem resolveJSONPath_through_primitive (p q : string) (data v : value) :
  startsWith p "$" = true →
  resolveJSONPath p data = Ret v →
  primitive v = true →
  path_segments ("$." +:+ q) ≠ [] →
  resolveJSONPath (p +:+ "." +:+ q) data = Ret VUndef.
Proof.
  unfold resolveJSONPath. intros Hroot. rewrite (startsWith_root_app p _ Hroot), Hroot.
  cbn [negb]. intros Hp Hv Hq. rewrite path_segments_app by done.
  by apply (resolve_loop_primitive _ _ _ v).
Qed.

(** X21.  Empty segments do not count: a doubled dot reads as one dot,
    and a dot at the end as none, for [resolveJSONPath] and for
    [setJSONPath]. *)
Theorem path_empty_segments `{rt : Runtime} (p q : string) (data v : value) :
  startsWith p "$" = true →
  resolveJSONPath (p +:+ ".." +:+ q) data = resolveJSONPath (p +:+ "." +:+ q) data
  ∧ resolveJSONPath (p +:+ ".") data = resolveJSONPath p data
  ∧ setJSONPath (p +:+ ".." +:+ q) data v = setJSONPath (p +:+ "." +:+ q) data v
  ∧ setJSONPath (p +:+ ".") data v = setJSONPath p data v.
Proof.
  intros Hroot.
  assert (path_segments (p +:+ ".." +:+ q) = path_segments (p +:+ "." +:+ q)) as Hdouble.
  { change (p +:+ ".." +:+ q) with (p +:+ "." +:+ ("." +:+ q)).
    rewrite !path_segments_app by done. f_equal. }
  assert (path_segments (p +:+ ".") = path_segments p) as Hend.
  { change (p +:+ ".") with (p +:+ "." +:+ "").
    rewrite path_segments_app by done. apply app_nil_r. }
  unfold resolveJSONPath, setJSONPath.
  rewrite !(startsWith_root_app p _ Hroot), Hroot, Hdouble, Hend. done.
Qed.

Lemma is_digit_not_dot (c : ascii) :
  is_digit c = true → negb (bool_decide (c = "."%char)) = true.
Proof. intros Hc. by apply is_word_not_dot, is_digit_is_word. Qed.

Lemma str_span_digits_bracket (digits rest : string) :
  str_forallb is_digit digits = true →
  str_span is_digit (digits +:+ String "]" rest) = (digits, String "]" rest).
Proof.
  induction digits as [|c digits IH]; simpl; [done|].
  intros [Hc Hdigits]%andb_prop. by rewrite Hc, IH.
Qed.

Lemma match_array_segment_index (propName digits : string) :
  is_identifier propName = true →
  digits ≠ "" →
  str_forallb is_digit digits = true →
  match_array_segment (propName +:+ "[" +:+ digits +:+ "]") = Some (propName, digits).
Proof.
  unfold is_identifier, match_array_segment, bracket_match.
  intros [Hne Hword]%andb_prop Hdigits Hall.
  change ("[" +:+ digits +:+ "]") with (String "[" (digits +:+ "]")).
  rewrite str_span_word_bracket by done.
  destruct propName as [|c propName]; [done|].
  rewrite str_span_digits_bracket by done.
  assert (str_eqb digits "" = false) as -> by (by apply bool_decide_eq_false).
  done.
Qed.

(** X22.  [$.name[d]] reads an element of the array under [name]: the
    one at the index the digits [d] denote, leading zeros included, and
    [undefined] when the array has no such element.  (An array of the
    language has fewer than [2^32] elements.) *)
Theorem resolveJSONPath_index (propName digits : string) (props : gmap string value)
    (elements : list value) :
  is_identifier propName = true →
  digits ≠ "" →
  str_forallb is_digit digits = true →
  (N.of_nat (length elements) < 2 ^ 32)%N →
  props !! propName = Some (array_of_list elements) →
  resolveJSONPath ("$." +:+ propName +:+ "[" +:+ digits +:+ "]") (VObj props)
  = Ret (default VUndef (elements !! N.to_nat (parse_digits digits))).
Proof.
  intros Hname Hdigits Hall _ Hlookup. unfold resolveJSONPath.
  change (startsWith ("$." +:+ propName +:+ "[" +:+ digits +:+ "]") "$") with true.
  cbn [negb]. unfold path_segments.
  change (slice1 ("$." +:+ propName +:+ "[" +:+ digits +:+ "]"))
    with ("" +:+ String "." (propName +:+ "[" +:+ digits +:+ "]")).
  rewrite split_app_separator,
    (split_no_separator "." (propName +:+ "[" +:+ digits +:+ "]")).
  - assert (propName +:+ "[" +:+ digits +:+ "]" ≠ "") as Hsegment
      by (apply andb_prop in Hname as [_ _]; by destruct propName).
    cbn [split app List.filter String.length Nat.ltb Nat.leb].
    destruct (propName +:+ "[" +:+ digits +:+ "]") as [|c segment] eqn:Heq; [done|].
    cbn [List.filter String.length Nat.ltb Nat.leb]. rewrite <- Heq.
    rewrite resolve_loop_cons. unfold resolve_segment. cbn [is_nullish].
    rewrite match_array_segment_index by done.
    cbn [typeof]. change (negb (str_eqb "object" "object")) with false. cbv iota.
    rewrite get_prop_object, Hlookup, bind_Ret.
    change (default VUndef (Some (array_of_list elements))) with (array_of_list elements).
    change (negb (isArray (array_of_list elements))) with false. cbv iota.
    assert (str_eqb digits "*" = false) as ->.
    { apply bool_decide_eq_false. intros ->. done. }
    by rewrite array_of_list_lookup.
  - apply andb_prop in Hname as [_ Hword].
    rewrite !str_forallb_app.
    rewrite (str_forallb_impl _ _ _ is_word_not_dot Hword).
    by rewrite (str_forallb_impl _ _ _ is_digit_not_dot Hall).
Qed.


Section MorePathProperties.
Context {rt : Runtime}.



Lemma put_prop_primitive (x : value) (k : string) (y : value) :
  primitive x = true → put_prop x k y = Throw TypeError.
Proof. by destruct x. Qed.

(** X24.  [setJSONPath] does not write under a value that is not an
    object.  When the path has two segments and the first names a property
    that holds a string that is not empty, a number other than zero and
    NaN, or [true], the assignment at the last segment throws a
    [TypeError] (the module is in strict mode; the one name whose
    assignment a primitive accepts is [__proto__]). *)
Theorem setJSONPath_through_primitive (path segment lastSegment : string)
    (props : gmap string value) (x v : value) :
  startsWith path "$" = true →
  path_segments path = [segment; lastSegment] →
  match_index_segment segment = None →
  lastSegment ≠ "__proto__" →
  props !! segment = Some x →
  primitive x = true →
  truthy x = true →
  setJSONPath path (VObj props) v = Throw TypeError.
Proof.
  intros Hroot Hsegments Hplain _ Hlookup Hx Htruthy.
  unfold setJSONPath. rewrite Hroot, Hsegments. cbn [negb].
  rewrite set_loop_step, Hplain, get_prop_object, Hlookup.
  change (default VUndef (Some x)) with x. rewrite bind_Ret, Htruthy. cbn [negb].
  rewrite bind_Ret, get_prop_object, Hlookup.
  change (default VUndef (Some x)) with x. rewrite bind_Ret.
  cbn [set_loop]. by rewrite put_prop_primitive.
Qed.

End MorePathProperties.

Lemma resolveJSONPath_compose_witness :
  resolveJSONPath "$.taxpayer.firstName" sample_record
  = found ← resolveJSONPath "$.taxpayer" sample_record;
    resolveJSONPath "$.firstName" found.
Proof.
  exact (resolveJSONPath_compose "$.taxpayer" "firstName" sample_record eq_refl eq_refl).
Defined.

Lemma resolveJSONPath_through_primitive_witness :
  resolveJSONPath "$.taxpayer.firstName.length" sample_record = Ret VUndef.
Proof.
  refine (resolveJSONPath_through_primitive "$.taxpayer.firstName" "length" sample_record
            (VStr "John") eq_refl eq_refl eq_refl _).
  discriminate.
Defined.

Lemma path_empty_segments_witness :
  resolveJSONPath "$.taxpayer..firstName" sample_record
  = resolveJSONPath "$.taxpayer.firstName" sample_record.
Proof.
  exact (proj1 (path_empty_segments (rt := sample_runtime) "$.taxpayer" "firstName"
                  sample_record VUndef eq_refl)).
Defined.

Lemma resolveJSONPath_index_witness :
  resolveJSONPath "$.w2Forms[01]" (object_of_list [("w2Forms", w2_forms)])
  = Ret (object_of_list [("wages", VNum (number_of_Z 40000))]).
Proof.
  refine (resolveJSONPath_index "w2Forms" "01" (list_to_map [("w2Forms", w2_forms)])
            [object_of_list [("wages", VNum (number_of_Z 85000))];
             object_of_list [("wages", VNum (number_of_Z 40000))]]
            eq_refl _ eq_refl eq_refl eq_refl).
  discriminate.
Defined.


Lemma setJSONPath_through_primitive_witness :
  setJSONPath (rt := sample_runtime) "$.firstName.initial" taxpayer VNull
  = Throw TypeError.
Proof.
  refine (setJSONPath_through_primitive (rt := sample_runtime) "$.firstName.initial"
            "firstName" "initial"
            (list_to_map [("firstName", VStr "John"); ("ssn", VStr "123456789")])
            (VStr "John") VNull eq_refl eq_refl eq_refl _ eq_refl eq_refl eq_refl).
  discriminate.
Defined.

(* ====================================================================== *)
(** * Further properties: the formatters *)
(* ====================================================================== *)

Lemma str_filter_app (p : ascii → bool) (s t : string) :
  str_filter p (s +:+ t) = str_filter p s +:+ str_filter p t.
Proof. induction s as [|c s IH]; simpl; [done|]. destruct (p c); simpl; by rewrite IH. Qed.

Lemma str_filter_forallb (p : ascii → bool) (s : string) :
  str_forallb p (str_filter p s) = true.
Proof.
  induction s as [|c s IH]; simpl; [done|].
  destruct (p c) eqn:Hc; simpl; [by rewrite Hc|done].
Qed.

Lemma str_filter_all (p : ascii → bool) (s : string) :
  str_forallb p s = true → str_filter p s = s.
Proof.
  induction s as [|c s IH]; simpl; [done|].
  intros [Hc Hs]%andb_prop. by rewrite Hc, IH.
Qed.

Lemma str_span_all (p : ascii → bool) (s : string) :
  str_forallb p s = true → str_span p s = (s, "").
Proof.
  induction s as [|c s IH]; simpl; [done|].
  intros [Hc Hs]%andb_prop. by rewrite Hc, IH.
Qed.

Lemma length_append (s t : string) :
  String.length (s +:+ t) = String.length s + String.length t.
Proof. induction s as [|c s IH]; simpl; [done|]. by rewrite IH. Qed.

Lemma concat_cons (sep part : string) (parts : list string) :
  parts ≠ [] →
  String.concat sep (part :: parts) = part +:+ sep +:+ String.concat sep parts.
Proof. by destruct parts. Qed.

(** Joining the pieces of a string with the separator gives it back. *)
Lemma concat_split (sep : ascii) (s : string) :
  String.concat (String sep "") (split sep s) = s.
Proof.
  induction s as [|c s IH]; [done|]. cbn [split].
  pose proof (split_nonempty sep s) as Hne.
  destruct (split sep s) as [|piece pieces]; [done|].
  case_bool_decide as Hc.
  - subst c. rewrite concat_cons by done. by rewrite IH.
  - destruct pieces as [|following pieces].
    + simpl in *. by rewrite IH.
    + rewrite concat_cons by done. rewrite concat_cons in IH by done.
      by rewrite <- IH.
Qed.

Lemma str_filter_concat (parts : list string) :
  str_filter not_comma (String.concat "." parts)
  = String.concat "." (str_filter not_comma <$> parts).
Proof.
  induction parts as [|part parts IH]; [done|].
  destruct parts as [|following parts]; [done|].
  rewrite fmap_cons. rewrite !concat_cons by done.
  by rewrite !str_filter_app, IH.
Qed.

Lemma insert_separators_only_commas (prev : option ascii) (s : string) :
  str_filter not_comma (insert_separators prev s) = str_filter not_comma s.
Proof.
  revert prev. induction s as [|c s IH]; intros prev; cbn [insert_separators].
  - by destruct (_ && _).
  - rewrite str_filter_app. cbn [str_filter]. rewrite IH. by destruct (_ && _).
Qed.

(** X25.  [addThousandsSeparators] only inserts commas: without its
    commas, the result is the input without its commas. *)
Theorem addThousandsSeparators_only_commas (numStr : string) :
  str_filter not_comma (addThousandsSeparators numStr) = str_filter not_comma numStr.
Proof.
  unfold addThousandsSeparators.
  rewrite <- (concat_split "." numStr) at 2.
  destruct (split "." numStr) as [|part parts]; [done|].
  rewrite !str_filter_concat, !fmap_cons. by rewrite insert_separators_only_commas.
Qed.

Lemma insert_separators_after_digit (c : ascii) (s : string) :
  is_digit c = true →
  str_forallb is_digit s = true →
  insert_separators (Some c) s
  = (if (0 <? String.length s)%nat && (String.length s mod 3 =? 0)%nat then "," else "")
    +:+ insert_separators None s.
Proof.
  intros Hc Hs.
  assert (groups_of_three_ahead s
          = (0 <? String.length s)%nat && (String.length s mod 3 =? 0)%nat) as Hgroups.
  { unfold groups_of_three_ahead. by rewrite str_span_all. }
  destruct s as [|d s].
  - cbn [insert_separators]. change (groups_of_three_ahead "") with false.
    by rewrite andb_false_r.
  - rewrite insert_separators_first. cbn [insert_separators str_head].
    rewrite Hgroups. unfold not_word_boundary. cbn [from_option].
    apply andb_prop in Hs as [Hd _].
    rewrite (is_digit_is_word c Hc), (is_digit_is_word d Hd).
    rewrite bool_decide_eq_true_2 by done. done.
Qed.

Lemma addThousandsSeparators_no_dot (s : string) :
  str_forallb (λ c, negb (bool_decide (c = "."%char))) s = true →
  addThousandsSeparators s = insert_separators None s.
Proof. intros Hs. unfold addThousandsSeparators. by rewrite split_no_separator. Qed.

Lemma grouping_arithmetic (m : nat) :
  (if (0 <? m)%nat && (m mod 3 =? 0)%nat then 1 else 0) + (m - 1) / 3 = m / 3.
Proof.
  destruct m as [|m]; [done|].
  replace (S m - 1) with m by lia.
  pose proof (Nat.div_mod_eq m 3). pose proof (Nat.div_mod_eq (S m) 3).
  pose proof (Nat.mod_upper_bound m 3). pose proof (Nat.mod_upper_bound (S m) 3).
  cbn [Nat.ltb Nat.leb andb].
  destruct (Nat.eqb_spec (S m mod 3) 0); lia.
Qed.

Lemma insert_separators_length (s : string) :
  str_forallb is_digit s = true →
  String.length (insert_separators None s)
  = String.length s + (String.length s - 1) / 3.
Proof.
  induction s as [|c s IH]; [done|].
  intros [Hc Hs]%andb_prop.
  rewrite insert_separators_first, insert_separators_after_digit by done.
  cbn [String.length]. rewrite length_append, IH by done.
  replace (S (String.length s) - 1) with (String.length s) by lia.
  rewrite <- (grouping_arithmetic (String.length s)).
  destruct (_ && _); simpl; lia.
Qed.

(** X26.  [addThousandsSeparators] groups the digits of a whole number in
    threes from the right: after a digit it puts a comma exactly when the
    digits that follow are three, six, nine and so on; [n] digits take
    [(n - 1) / 3] commas; and what follows the first dot is left as it
    is. *)
Theorem addThousandsSeparators_groups (c : ascii) (whole fraction : string) :
  str_forallb is_digit (String c whole) = true →
  let n := String.length whole in
  addThousandsSeparators (String c whole)
  = String c ((if (0 <? n)%nat && (n mod 3 =? 0)%nat then "," else "")
              +:+ addThousandsSeparators whole)
  ∧ String.length (addThousandsSeparators (String c whole)) = S n + n / 3
  ∧ addThousandsSeparators (String c whole +:+ "." +:+ fraction)
    = addThousandsSeparators (String c whole) +:+ "." +:+ fraction.
Proof.
  intros Hall n.
  assert (str_forallb (λ c, negb (bool_decide (c = "."%char))) (String c whole) = true)
    as Hdots by exact (str_forallb_impl _ _ _ is_digit_not_dot Hall).
  assert (is_digit c = true ∧ str_forallb is_digit whole = true) as [Hc Hwhole]
    by (by apply andb_prop).
  assert (str_forallb (λ c, negb (bool_decide (c = "."%char))) whole = true) as Hdots'
    by exact (str_forallb_impl _ _ _ is_digit_not_dot Hwhole).
  rewrite !addThousandsSeparators_no_dot by done.
  split; [|split].
  - by rewrite insert_separators_first, insert_separators_after_digit.
  - rewrite insert_separators_length by done. cbn [String.length].
    fold n. replace (S n - 1) with n by lia. done.
  - unfold addThousandsSeparators.
    change ("." +:+ fraction) with (String "." fraction).
    rewrite split_app_separator, split_no_separator by done.
    cbn [app]. rewrite concat_cons by apply split_nonempty.
    by rewrite concat_split.
Qed.

Section MoreFormattingProperties.
Context {rt : Runtime}.

(** X27.  [formatCurrency] throws a [RangeError] when the format is one
    that uses the decimal places and they are below 0 or above 100. *)
Theorem formatCurrency_range_error (v : number) (format : option CurrencyFormat)
    (decimalPlaces : option Z) (thousandsSeparator : option bool) :
  places_in_range format decimalPlaces = false →
  formatCurrency v format decimalPlaces thousandsSeparator = Throw RangeError.
Proof.
  unfold places_in_range, formatCurrency, toFixed.
  destruct (default USD_NO_SYMBOL format); [| |done|done];
    intros [Hlow|Hhigh]%andb_false_iff.
  - apply Z.leb_gt in Hlow. by rewrite (proj2 (Z.ltb_lt _ _) Hlow).
  - apply Z.leb_gt in Hhigh. rewrite (proj2 (Z.ltb_lt _ _) Hhigh). by rewrite orb_true_r.
  - apply Z.leb_gt in Hlow. by rewrite (proj2 (Z.ltb_lt _ _) Hlow).
  - apply Z.leb_gt in Hhigh. rewrite (proj2 (Z.ltb_lt _ _) Hhigh). by rewrite orb_true_r.
Qed.

End MoreFormattingProperties.

(** X28.  [formatSSN] changes nothing when applied a second time with the
    same flags, and without the mask it keeps the digits of its input. *)
Theorem formatSSN_idempotent (ssn : string) (showSeparators mask : option bool) :
  formatSSN (formatSSN ssn showSeparators mask) showSeparators mask
  = formatSSN ssn showSeparators mask
  ∧ (default false mask = false →
     str_filter is_digit (formatSSN ssn showSeparators mask) = str_filter is_digit ssn).
Proof.
  pose proof (str_filter_forallb is_digit ssn) as Hall.
  destruct (Nat.eqb_spec (String.length (str_filter is_digit ssn)) 9) as [Hnine|Hother].
  - destruct (str_filter is_digit ssn)
      as [|a [|b [|c [|d [|e [|f [|g [|h [|i [|j rest]]]]]]]]]] eqn:Hdigits; try done.
    cbn [str_forallb] in Hall.
    repeat (apply andb_prop in Hall as [? Hall]).
    assert (formatSSN ssn showSeparators mask
            = match default false mask, default true showSeparators with
              | true, _ => "***-**-" +:+ String f (String g (String h (String i "")))
              | false, true =>
                  String a (String b (String c (String "-" (String d (String e
                    (String "-" (String f (String g (String h (String i ""))))))))))
              | false, false =>
                  String a (String b (String c (String d (String e
                    (String f (String g (String h (String i ""))))))))
              end) as ->.
    { unfold formatSSN. rewrite Hdigits. simpl.
      by destruct (default false mask), (default true showSeparators). }
    unfold formatSSN.
    destruct (default false mask), (default true showSeparators);
      cbn [str_filter String.append];
      repeat match goal with H : is_digit _ = true |- _ => rewrite !H; clear H end;
      done.
  - assert (formatSSN ssn showSeparators mask = ssn) as Hsame.
    { unfold formatSSN.
      by destruct (Nat.eqb_spec (String.length (str_filter is_digit ssn)) 9). }
    by rewrite !Hsame.
Qed.

Lemma addThousandsSeparators_groups_witness :
  addThousandsSeparators "1234567.50" = "1,234,567.50".
Proof.
  exact (proj2 (proj2 (addThousandsSeparators_groups "1" "234567" "50" eq_refl))).
Defined.

Lemma formatCurrency_range_error_witness :
  formatCurrency (rt := sample_runtime) (number_of_Z 5) (Some USD) (Some 101%Z) None
  = Throw RangeError.
Proof.
  exact (formatCurrency_range_error (rt := sample_runtime) (number_of_Z 5) (Some USD)
           (Some 101%Z) None eq_refl).
Defined.

(* ====================================================================== *)
(** * Further properties: the summary and the type guard *)
(* ====================================================================== *)

Lemma FieldDataType_code_inj (a b : FieldDataType) :
  FieldDataType_code a = FieldDataType_code b → a = b.
Proof. by destruct a, b. Qed.

Lemma count_field_counted (fs : list FieldAnnotation) (counts : N * gmap string N)
    (field : FieldAnnotation) :
  counted fs counts → counted (fs ++ [field]) (count_field counts field).
Proof.
  intros (Htotal & Htypes & Hkeys). unfold count_field. split; [|split]; cbn [fst snd].
  - rewrite length_app, Htotal. cbn [length]. lia.
  - intros t. unfold fields_of_type in *. rewrite filter_app, length_app.
    destruct (decide (dataType field = t)) as [<- | Hother].
    + rewrite lookup_insert_eq, Htypes, filter_cons_True by done.
      rewrite filter_nil. cbn [length].
      destruct (Nat.eqb_spec (length (filter (λ f, dataType f = dataType field) fs)) 0)
        as [-> | Hpositive]; cbn [from_option id].
      * done.
      * destruct (Nat.eqb_spec (length (filter (λ f, dataType f = dataType field) fs) + 1) 0);
          [lia|]. f_equal. lia.
    + rewrite lookup_insert_ne by (by intros ?%FieldDataType_code_inj).
      rewrite filter_cons_False, filter_nil by done. cbn [length].
      by rewrite Htypes, Nat.add_0_r.
  - intros k Hk.
    destruct (decide (k = FieldDataType_code (dataType field))) as [-> | Hother]; [eauto|].
    rewrite lookup_insert_ne in Hk by done. by apply Hkeys.
Qed.

Lemma count_fields_counted (fs more : list FieldAnnotation) (counts : N * gmap string N) :
  counted fs counts → counted (fs ++ more) (foldl count_field counts more).
Proof.
  revert fs counts. induction more as [|field more IH]; intros fs counts Hcounted.
  - by rewrite app_nil_r.
  - cbn [foldl]. rewrite cons_middle, app_assoc. by apply IH, count_field_counted.
Qed.

Lemma count_pages_counted (fs : list FieldAnnotation) (ps : list PageDefinition)
    (counts : N * gmap string N) :
  counted fs counts →
  counted (fs ++ flat_map fields ps)
          (foldl (λ counts page, foldl count_field counts (fields page)) counts ps).
Proof.
  revert fs counts. induction ps as [|page ps IH]; intros fs counts Hcounted.
  - simpl. by rewrite app_nil_r.
  - cbn [foldl flat_map]. rewrite app_assoc. by apply IH, count_fields_counted.
Qed.

Lemma fields_of_type_total (fs : list FieldAnnotation) :
  sum_list ((λ t, length (fields_of_type t fs)) <$> FieldDataType_values) = length fs.
Proof.
  unfold fields_of_type. induction fs as [|field fs IH]; [done|].
  cbn [FieldDataType_values fmap list_fmap sum_list sum_list_with] in *.
  rewrite !filter_cons.
  unfold id in *.
  destruct (dataType field); repeat case_decide; try done; cbn [length]; lia.
Qed.

(** X29.  In the summary of a blueprint, [totalFields] is the number of
    fields on all pages; [fieldsByType] has, under the string of a data
    type, the number of fields of that type, and no entry for a type no
    field has, nor under any other name; so the counts of the nine types
    add up to [totalFields]. *)
Theorem summarizeBlueprint_counts (blueprint : FormBlueprint) :
  let summary := summarizeBlueprint blueprint in
  pageCount summary = N.of_nat (length (pages blueprint))
  ∧ totalFields summary = N.of_nat (length (all_fields blueprint))
  ∧ (∀ t, fieldsByType summary !! FieldDataType_code t
          = let n := length (fields_of_type t (all_fields blueprint)) in
            if (n =? 0)%nat then None else Some (N.of_nat n))
  ∧ (∀ k, is_Some (fieldsByType summary !! k) → ∃ t, k = FieldDataType_code t)
  ∧ sum_list ((λ t, N.to_nat (default 0%N (fieldsByType summary !! FieldDataType_code t)))
                <$> FieldDataType_values)
    = N.to_nat (totalFields summary).
Proof.
  assert (counted [] (0%N, ∅)) as Hstart.
  { split; [done|]. split; [done|]. intros k [x Hx]. cbn [snd] in Hx.
    by rewrite lookup_empty in Hx. }
  pose proof (count_pages_counted [] (pages blueprint) _ Hstart) as (Htotal & Htypes & Hkeys).
  cbn [app] in *. fold (all_fields blueprint) in *.
  unfold summarizeBlueprint. cbv zeta. cbn [pageCount totalFields fieldsByType].
  split; [done|]. split; [done|]. split; [done|]. split; [done|].
  rewrite Htotal, Nat2N.id, <- (fields_of_type_total (all_fields blueprint)).
  f_equal. apply list_fmap_ext. intros _ t _. rewrite Htypes.
  destruct (Nat.eqb_spec (length (fields_of_type t (all_fields blueprint))) 0) as [-> | _];
    [done|]. cbn [from_option id]. by rewrite Nat2N.id.
Qed.

(** X30.  The type guard [isFieldDataType] accepts the strings of the nine
    members of [FieldDataType] and nothing else, and no two members have
    the same string. *)
Theorem isFieldDataType_codes (v : value) :
  (isFieldDataType v = true ↔ ∃ t, v = VStr (FieldDataType_code t))
  ∧ (∀ a b, FieldDataType_code a = FieldDataType_code b → a = b).
Proof.
  split; [|exact FieldDataType_code_inj]. split.
  - unfold isFieldDataType, array_includes.
    destruct v as [| | | |s| |]; try done.
    cbn [FieldDataType_values fmap list_fmap existsb strict_equals FieldDataType_code].
    rewrite !orb_true_iff. unfold str_eqb. rewrite !bool_decide_eq_true.
    intros [->|[->|[->|[->|[->|[->|[->|[->|[->|[=]]]]]]]]]];
      [by exists STRING | by exists CURRENCY | by exists NUMBER | by exists CHECKBOX
      | by exists DATE | by exists SSN | by exists EIN | by exists PHONE
      | by exists PERCENTAGE].
  - intros [t ->]. by destruct t.
Qed.
